(** * Google Ads Keyword Intelligence dashboard (HD.py): a shallow embedding

    The script is one sequential pandas pipeline: read the uploaded CSV
    reports, concatenate them, normalise the columns, filter by account and
    campaign, derive five views, and on request post the top search terms to
    a chat-completion endpoint.  The development below follows that order.

    Data is modelled the way pandas holds it: a frame is a list of column
    labels with rows of cells, a cell is a float64 (NaN is the missing value)
    or a text, and every pandas call that can raise returns a [result]. *)

From Stdlib Require Import ZArith SpecFloat Ascii.
From stdpp Require Import base option list sorting strings gmap.

(** ** float64 *)

Module F64.

Definition t := spec_float.

Definition prec : Z := 53.
Definition emax : Z := 1024.

Definition add : t → t → t := SFadd prec emax.
Definition div : t → t → t := SFdiv prec emax.
Definition eqb : t → t → bool := SFeqb.
Definition leb : t → t → bool := SFleb.
Definition ltb : t → t → bool := SFltb.

Definition zero : t := S754_zero false.
Definition inf : t := S754_infinity false.
Definition nan : t := S754_nan.
Definition of_Z (z : Z) : t := binary_normalize prec emax z 0 false.

Definition is_nan (x : t) : bool :=
  match x with S754_nan => true | _ => false end.

(** [x ∈ [0, ∞)]: a number, not below zero, not infinite. *)
Definition in_zero_inf (x : t) : bool := leb zero x && ltb x inf.

#[global] Instance eq_dec : EqDecision t.
Proof. solve_decision. Defined.

End F64.

Abbreviation float64 := F64.t.

(** ** Cells, exceptions, results *)

(** What a pandas cell holds in this program: a number (NaN for a missing
    value, as in [pd.isna]) or a Python [str].  pandas keeps a column of whole
    numbers as int64; here every number is a float64, which holds the whole
    numbers below 2^53 exactly. *)
Inductive cell :=
  | Num (x : float64)
  | Str (s : string).

#[global] Instance cell_eq_dec : EqDecision cell.
Proof. solve_decision. Defined.

Definition NaN : cell := Num F64.nan.

Definition isna (c : cell) : bool :=
  match c with Num x => F64.is_nan x | Str _ => false end.

Definition notna (c : cell) : bool := negb (isna c).

(** [==] on cells as pandas compares and hashes values: floats by value
    (NaN equals nothing, 0.0 equals -0.0), texts by content. *)
Definition cell_eqb (a b : cell) : bool :=
  match a, b with
  | Num x, Num y => F64.eqb x y
  | Str s, Str t => bool_decide (s = t)
  | _, _ => false
  end.

Inductive exn :=
  | KeyError (key : string)
  | TypeError (msg : string)
  | ValueError (msg : string)
  | AttributeError (msg : string)
  | IndexError (msg : string)
  | OtherError (msg : string).

Inductive result (A : Type) :=
  | Ok (a : A)
  | Raise (e : exn).
Arguments Ok {A} a.
Arguments Raise {A} e.

Definition bind {A B} (m : result A) (k : A → result B) : result B :=
  match m with Ok a => k a | Raise e => Raise e end.

Notation "x ←! m ; k" := (bind m (fun x => k))
  (at level 20, m at level 100, k at level 200, right associativity,
   format "x  ←!  m ;  '/' k").

(** ** Frames *)

(** A pandas DataFrame: the column labels, and the rows in order.  Row [r]
    holds the cell of column [j] at [r !! j]. *)
Record DataFrame := {
  columns : list string;
  data : list (list cell)
}.

(** The cell of a row at a column position; pandas frames are rectangular,
    a position outside the row reads as missing. *)
Definition cell_at (j : nat) (r : list cell) : cell := default NaN (r !! j).

Fixpoint positions_from (n : nat) (col : string) (cols : list string) : list nat :=
  match cols with
  | [] => []
  | c :: cs =>
      if decide (c = col) then n :: positions_from (S n) col cs
      else positions_from (S n) col cs
  end.

(** Every position at which a label occurs. *)
Definition positions (col : string) (df : DataFrame) : list nat :=
  positions_from 0 col (columns df).

(** [df[col]] as a Series: the label must name exactly one column.  A missing
    label raises KeyError; with a repeated label [df[col]] is a frame, which
    the caller cannot use as a Series ([dup] is what it raises then). *)
Definition column_index (dup : exn) (col : string) (df : DataFrame) : result nat :=
  match positions col df with
  | [] => Raise (KeyError col)
  | [i] => Ok i
  | _ => Raise dup
  end.

(** The position of the first column with a label, if any. *)
Definition index_of (col : string) (cols : list string) : option nat :=
  fst <$> list_find (λ c, c = col) cols.

(** ** Ingestion (lines 27-49) *)

(** What the CSV tokenizer yields for a file once the two banner lines are
    skipped: the header labels (pandas has already made repeated labels
    distinct) and the records as text fields. *)
Record CsvTable := {
  header : list string;
  records : list (list string)
}.

(** An uploaded file: its name, and the outcome of tokenizing it
    ([Raise] when [pd.read_csv] raises: empty file, ragged lines, bad
    encoding). *)
Record UploadedFile := {
  name : string;
  parsed : result CsvTable
}.

(** The texts [pd.read_csv] reads as a missing value by default. *)
Definition na_values : list string :=
  [""; "#N/A"; "#N/A N/A"; "#NA"; "-1.#IND"; "-1.#QNAN"; "-NaN"; "-nan";
   "1.#IND"; "1.#QNAN"; "<NA>"; "N/A"; "NA"; "NULL"; "NaN"; "None"; "n/a";
   "nan"; "null"]%string.

Definition is_na_field (s : string) : bool := bool_decide (s ∈ na_values).

(** A record shorter than the header is padded with missing fields. *)
Definition field_at (j : nat) (rec : list string) : string := default ""%string (rec !! j).

(** What the script shows to the user. *)
Inductive notice :=
  | UploadPrompt                                  (* st.warning, line 34 *)
  | ErrorReading (file : string) (e : exn).  (* st.error, line 47 *)

(** How a run of the script's top part ends. *)
Inductive run (A : Type) :=
  | Continue (a : A)      (* the script goes on with [a] *)
  | Stopped               (* st.stop() *)
  | Uncaught (e : exn).   (* an exception no handler catches *)
Arguments Continue {A} a.
Arguments Stopped {A}.
Arguments Uncaught {A} e.

Section Pipeline.

(** pandas' reader of numeric literals, shared by [read_csv]'s type inference
    and [pd.to_numeric]: [None] when the text is not a number. *)
Variable parse_number : string → option float64.

Definition numeric_field (s : string) : bool :=
  is_na_field s || bool_decide (is_Some (parse_number s)).

(** A column is read as numbers when each of its fields is missing or a
    numeric literal, and as texts otherwise. *)
Definition column_is_numeric (recs : list (list string)) (j : nat) : bool :=
  forallb (λ rec, numeric_field (field_at j rec)) recs.

Definition read_field (numeric : bool) (s : string) : cell :=
  if is_na_field s then NaN
  else if numeric then
    match parse_number s with Some x => Num x | None => Str s end
  else Str s.

Definition read_csv (f : UploadedFile) : result DataFrame :=
  t ←! parsed f;
  Ok {| columns := header t;
        data := (λ rec, imap (λ j _, read_field (column_is_numeric (records t) j)
                                                (field_at j rec)) (header t))
                <$> records t |}.

(** [df[col] = v] with a scalar: overwrite the column, or append it. *)
Definition set_column (col : string) (v : cell) (df : DataFrame) : DataFrame :=
  match index_of col (columns df) with
  | Some i => {| columns := columns df; data := (λ r, <[i := v]> r) <$> data df |}
  | None => {| columns := columns df ++ [col]; data := (λ r, r ++ [v]) <$> data df |}
  end.

(** The loop of lines 40-47: the frames read, and the errors shown. *)
Fixpoint load_files (files : list UploadedFile) : list notice * list DataFrame :=
  match files with
  | [] => ([], [])
  | file :: rest =>
      let '(shown, all_dfs) := load_files rest in
      match read_csv file with
      | Ok df => (shown, set_column "account" (Str (name file)) df :: all_dfs)
      | Raise e => (ErrorReading (name file) e :: shown, all_dfs)
      end
  end.

(** The rows of a frame laid out under the labels [cols]; a column the frame
    lacks is filled with NaN. *)
Definition reindex (cols : list string) (df : DataFrame) : list (list cell) :=
  (λ r, (λ c, match index_of c (columns df) with
              | Some i => cell_at i r
              | None => NaN
              end) <$> cols) <$> data df.

(** The labels of a list, each once, in order of first appearance
    ([remove_dups] keeps the last occurrence of a label, hence the two
    reversals). *)
Definition first_seen (cols : list string) : list string :=
  reverse (remove_dups (reverse cols)).

(** [pd.concat(all_dfs, ignore_index=True)]: the union of the labels in
    order of first appearance, the rows in order. *)
Definition pd_concat (dfs : list DataFrame) : result DataFrame :=
  match dfs with
  | [] => Raise (ValueError "No objects to concatenate")
  | _ =>
      let cols := first_seen (mjoin (columns <$> dfs)) in
      Ok {| columns := cols; data := mjoin (reindex cols <$> dfs) |}
  end.

(** Lines 33-49. *)
Definition ingestion (uploaded_files : list UploadedFile) : list notice * run DataFrame :=
  match uploaded_files with
  | [] => ([UploadPrompt], Stopped)
  | _ =>
      let '(shown, all_dfs) := load_files uploaded_files in
      (shown, match pd_concat all_dfs with
              | Ok df => Continue df
              | Raise e => Uncaught e
              end)
  end.

(** ** Normalization (lines 52-67) *)

Definition rename_map : list (string * string) :=
  [("Search term", "search_term"); ("Keyword", "keyword");
   ("Campaign", "campaign"); ("Ad group", "ad_group");
   ("Impr.", "impressions"); ("Interactions", "clicks");
   ("Cost", "cost"); ("Match type", "match_type")]%string.

Definition rename_label (c : string) : string :=
  match list_find (λ p, p.1 = c) rename_map with
  | Some (_, (_, c')) => c'
  | None => c
  end.

Definition rename (df : DataFrame) : DataFrame :=
  {| columns := rename_label <$> columns df; data := data df |}.

(** [pd.to_numeric(_, errors="coerce")] on one cell. *)
Definition to_numeric (c : cell) : cell :=
  match c with
  | Num x => Num x
  | Str s => match parse_number s with Some x => Num x | None => NaN end
  end.

(** [.fillna(0)] on one cell. *)
Definition fillna0 (c : cell) : cell := if isna c then Num F64.zero else c.

Definition clean_number (c : cell) : cell := fillna0 (to_numeric c).

(** Line 65, [df[col] = pd.to_numeric(df[col], errors="coerce").fillna(0)]. *)
Definition clean_column (col : string) (df : DataFrame) : result DataFrame :=
  i ←! column_index (TypeError "arg must be a list, tuple, 1-d array, or Series") col df;
  Ok {| columns := columns df; data := alter clean_number i <$> data df |}.

(** Line 67, [df.dropna(subset=[col])]: a row goes when any column with
    that label is missing in it. *)
Definition dropna (col : string) (df : DataFrame) : result DataFrame :=
  match positions col df with
  | [] => Raise (KeyError col)
  | ps => Ok {| columns := columns df;
                data := filter (λ r, forallb (λ p, notna (cell_at p r)) ps) (data df) |}
  end.

(** A row whose cell at [i] is already a number needs no cleaning there. *)
Definition cleaned_at (i : nat) (r : list cell) : Prop :=
  ∀ c, r !! i = Some c → clean_number c = c.

Definition numeric_columns : list string := ["impressions"; "clicks"; "cost"]%string.

Definition normalization (df : DataFrame) : result DataFrame :=
  df ←! foldl (λ acc col, df ←! acc; clean_column col df) (Ok (rename df)) numeric_columns;
  dropna "search_term" df.

End Pipeline.

(** The frames [read_csv] and [pd.concat] build are rectangular, and outside
    the account column (the file name) no cell is the empty text: the reader
    turns an empty field into NaN. *)
Definition frame_ok (df : DataFrame) : Prop :=
  ∀ r, r ∈ data df →
    length r = length (columns df) ∧
    ∀ j c, columns df !! j = Some c → c ≠ "account"%string →
           r !! j ≠ Some (Str "").

(** ** Filter context (lines 74-81) *)

(** What a select box hands back is the option that was picked: the text
    All, or one of the values [Series.unique] found in the column, a text or
    a number as the column holds them (NaN too, when a cell is missing). *)

(** [df[df[col] == sel]] with [col] at position [i]: the comparison is
    Python's [==] cell by cell, so a number never equals a text and a
    missing value equals nothing. *)
Definition select_rows (i : nat) (sel : cell) (df : DataFrame) : DataFrame :=
  {| columns := columns df;
     data := filter (λ r, cell_eqb (cell_at i r) sel) (data df) |}.

(** With a repeated label [df[col]] is a frame, which has no [unique]. *)
Definition no_unique : exn :=
  AttributeError "'DataFrame' object has no attribute 'unique'".

(** Lines 74-81: each selector is built from the frame at hand (which needs
    the column), then applied, the account first. *)
Definition filter_context (account_sel campaign_sel : cell) (df : DataFrame) : result DataFrame :=
  a ←! column_index no_unique "account" df;
  let filtered_df := if decide (account_sel = Str "All") then df
                     else select_rows a account_sel df in
  c ←! column_index no_unique "campaign" filtered_df;
  Ok (if decide (campaign_sel ≠ Str "All") then select_rows c campaign_sel filtered_df
      else filtered_df).

(** A row's cell [v] passes the selection [sel]. *)
Definition chosen (sel v : cell) : bool :=
  bool_decide (sel = Str "All") || cell_eqb v sel.

(** ** Grouping and aggregation *)

(** The order in which [groupby] lists its keys: numbers before texts,
    numbers by value, texts by code point. *)
Definition cell_le (a b : cell) : Prop :=
  match a, b with
  | Num x, Num y => F64.leb x y
  | Num _, Str _ => True
  | Str _, Num _ => False
  | Str s, Str t => String.le s t
  end.

#[global] Instance cell_le_dec : RelDecision cell_le.
Proof. intros [x|s] [y|t]; simpl; apply _. Defined.

(** The distinct values of a column in order of first appearance ([unique]). *)
Fixpoint unique (cs : list cell) : list cell :=
  match cs with
  | [] => []
  | c :: cs' => c :: filter (λ d, negb (cell_eqb c d)) (unique cs')
  end.

(** The keys of [df.groupby(col)]: the distinct values that are not missing
    (rows with a missing key belong to no group), sorted. *)
Definition group_keys (i : nat) (rows : list (list cell)) : list cell :=
  merge_sort cell_le (unique (filter notna (cell_at i <$> rows))).

(** The rows of one group. *)
Definition group_rows (i : nat) (key : cell) (rows : list (list cell)) : list (list cell) :=
  filter (λ r, cell_eqb (cell_at i r) key) rows.

(** The numbers a metric column holds; after Normalization every cell of
    impressions, clicks and cost is a number. *)
Definition numbers (cs : list cell) : list float64 :=
  omap (λ c, match c with Num x => Some x | Str _ => None end) cs.

(** The aggregation ["sum"]: missing values are skipped, the rest is added
    up in row order.  pandas adds a column of whole numbers in int64 and, in
    a float64 column, carries a correction term for the rounding of the
    running sum; both agree with this sum whenever the partial sums are
    exact in float64, as they are for counts below 2^53. *)
Definition agg_sum (cs : list cell) : float64 :=
  foldl F64.add F64.zero (filter (λ x, negb (F64.is_nan x)) (numbers cs)).

(** The aggregation ["nunique"]: how many distinct values, missing ones
    apart. *)
Definition agg_nunique (cs : list cell) : nat :=
  length (unique (filter notna cs)).

(** [sort_values]: pandas sorts with its default kind, quicksort, which
    promises an ordered rearrangement of the rows and nothing about the
    relative order of rows with equal keys: which kernel runs (insertion
    sort on short arrays, a partitioning sort, a vectorised network) depends
    on the length of the array and on the numpy build.  The relation admits
    every table a kernel may return, so what is proved of all admitted
    tables holds of the one that is shown.  [before a b] says that [a] may
    stand before [b]. *)
Definition sort_values {A} (before : A → A → Prop) (l l' : list A) : Prop :=
  l' ≡ₚ l ∧ StronglySorted before l'.

(** Descending order of a float64 key, missing values last. *)
Definition desc (x y : float64) : Prop :=
  F64.is_nan y ∨ (¬ F64.is_nan x ∧ F64.leb y x).

#[global] Instance desc_dec : RelDecision desc.
Proof. intros x y. unfold desc. apply _. Defined.

(** A stable descending sort (what [kind="stable"] would do): insertion
    from the right, an element going before the first one it may precede. *)
Fixpoint insert_by {A} (before : A → A → Prop) `{!RelDecision before}
    (a : A) (l : list A) : list A :=
  match l with
  | [] => [a]
  | b :: l' => if decide (before a b) then a :: b :: l' else b :: insert_by before a l'
  end.

Definition stable_sort {A} (before : A → A → Prop) `{!RelDecision before}
    (l : list A) : list A :=
  foldr (insert_by before) [] l.

(** ** Keyword Summary (lines 88-100) *)

Record KeywordTotals := {
  keyword : cell;
  total_search_terms : nat;
  total_impressions : float64;
  total_clicks : float64;
  total_cost : float64
}.

Record KeywordSummary := {
  totals : KeywordTotals;
  CTR : float64;
  CPC : float64
}.

Definition grouper_error : exn := ValueError "Grouper not 1-dimensional".

(** Lines 89-96: one row of totals per keyword. *)
Definition summary_groups (filtered_df : DataFrame) : result (list KeywordTotals) :=
  kw ←! column_index grouper_error "keyword" filtered_df;
  st ←! column_index grouper_error "search_term" filtered_df;
  im ←! column_index grouper_error "impressions" filtered_df;
  cl ←! column_index grouper_error "clicks" filtered_df;
  co ←! column_index grouper_error "cost" filtered_df;
  Ok ((λ k, let g := group_rows kw k (data filtered_df) in
            {| keyword := k;
               total_search_terms := agg_nunique (cell_at st <$> g);
               total_impressions := agg_sum (cell_at im <$> g);
               total_clicks := agg_sum (cell_at cl <$> g);
               total_cost := agg_sum (cell_at co <$> g) |})
      <$> group_keys kw (data filtered_df)).

(** [.fillna(0)] and [.replace([float("inf")], 0)] on one float. *)
Definition fillna_zero (x : float64) : float64 :=
  if F64.is_nan x then F64.zero else x.

Definition replace_inf_zero (x : float64) : float64 :=
  if decide (x = F64.inf) then F64.zero else x.

(** Lines 99-100. *)
Definition with_rates (t : KeywordTotals) : KeywordSummary :=
  {| totals := t;
     CTR := fillna_zero (F64.div (total_clicks t) (total_impressions t));
     CPC := replace_inf_zero (F64.div (total_cost t) (total_clicks t)) |}.

Definition by_search_terms_desc (a b : KeywordTotals) : Prop :=
  total_search_terms b ≤ total_search_terms a.

#[global] Instance by_search_terms_desc_dec : RelDecision by_search_terms_desc.
Proof. intros a b. unfold by_search_terms_desc. apply _. Defined.

(** The Keyword Summary: [out] is a table the script may show. *)
Definition summary (filtered_df : DataFrame) (out : list KeywordSummary) : Prop :=
  ∃ groups sorted,
    summary_groups filtered_df = Ok groups ∧
    sort_values by_search_terms_desc groups sorted ∧
    out = with_rates <$> sorted.

(** ** Top Terms (lines 130-135) *)

Record TermTotals := {
  term : cell;
  clicks : float64;
  impressions : float64
}.

#[global] Instance TermTotals_eq_dec : EqDecision TermTotals.
Proof. solve_decision. Defined.

Definition top_terms_groups (filtered_df : DataFrame) : result (list TermTotals) :=
  st ←! column_index grouper_error "search_term" filtered_df;
  cl ←! column_index grouper_error "clicks" filtered_df;
  im ←! column_index grouper_error "impressions" filtered_df;
  Ok ((λ k, let g := group_rows st k (data filtered_df) in
            {| term := k;
               clicks := agg_sum (cell_at cl <$> g);
               impressions := agg_sum (cell_at im <$> g) |})
      <$> group_keys st (data filtered_df)).

Definition by_clicks_desc (a b : TermTotals) : Prop := desc (clicks a) (clicks b).

#[global] Instance by_clicks_desc_dec : RelDecision by_clicks_desc.
Proof. intros a b. unfold by_clicks_desc. apply _. Defined.

Definition top_terms (filtered_df : DataFrame) (out : list TermTotals) : Prop :=
  ∃ groups sorted,
    top_terms_groups filtered_df = Ok groups ∧
    sort_values by_clicks_desc groups sorted ∧
    out = take 15 sorted.

(** The Top Terms table if ties were kept in group order, as the
    specification describes it. *)
Definition top_terms_stable (filtered_df : DataFrame) : result (list TermTotals) :=
  groups ←! top_terms_groups filtered_df;
  Ok (take 15 (stable_sort by_clicks_desc groups)).

(** ** Mapping (lines 198-202) *)

Definition mapping_columns : list string :=
  ["search_term"; "keyword"; "impressions"; "clicks"; "cost"]%string.

(** [df[[labels]]]. *)
Fixpoint column_indexes (labels : list string) (df : DataFrame) : result (list nat) :=
  match labels with
  | [] => Ok []
  | c :: cs =>
      i ←! column_index (ValueError "not 1-dimensional") c df;
      ixs ←! column_indexes cs df;
      Ok (i :: ixs)
  end.

Definition project (ixs : list nat) (r : list cell) : list cell :=
  (λ i, cell_at i r) <$> ixs.

Definition cell_number (c : cell) : float64 :=
  match c with Num x => x | Str _ => F64.nan end.

(** Position 3 of a projected row is its clicks. *)
Definition by_row_clicks_desc (a b : list cell) : Prop :=
  desc (cell_number (cell_at 3 a)) (cell_number (cell_at 3 b)).

#[global] Instance by_row_clicks_desc_dec : RelDecision by_row_clicks_desc.
Proof. intros a b. unfold by_row_clicks_desc. apply _. Defined.

Definition mapping (filtered_df : DataFrame) (out : DataFrame) : Prop :=
  ∃ ixs,
    column_indexes mapping_columns filtered_df = Ok ixs ∧
    columns out = mapping_columns ∧
    sort_values by_row_clicks_desc (project ixs <$> data filtered_df) (data out).

(** ** Coverage Analyzer (lines 151-165) *)

(** The [re.sub] of line 154: every opening bracket, closing bracket and
    double quote (character 34) is removed. *)
Fixpoint strip_brackets (s : string) : string :=
  match s with
  | EmptyString => EmptyString
  | String a s' =>
      if bool_decide (a ∈ ["["; "]"; "034"]%char) then strip_brackets s'
      else String a (strip_brackets s')
  end.

Definition is_text (c : cell) : bool :=
  match c with Str _ => true | Num _ => false end.

Record Coverage := {
  all_keywords : gset (option string);
  all_search_terms : gset (option string);
  uncovered_terms : gset (option string);
  uncovered_rows : list (list cell)
}.

Section Coverage_analyzer.

(** Python's [str.lower], [str.strip] and [str] of a float. *)
Variable str_lower : string → string.
Variable str_strip : string → string.
Variable str_of_float : float64 → string.

Definition py_str (c : cell) : string :=
  match c with Num x => str_of_float x | Str s => s end.

(** Lines 151-154. *)
Definition clean_kw (text : cell) : string :=
  if isna text then ""%string
  else str_lower (str_strip (strip_brackets (py_str text))).

(** One value of [.str.lower().str.strip()]: a text is lowered and trimmed,
    any other value gives NaN ([None] here). *)
Definition search_term_clean (c : cell) : option string :=
  match c with
  | Str s => Some (str_strip (str_lower s))
  | Num _ => None
  end.

(** The [.str] accessor refuses a column that holds values none of which is
    a text (a column with no value at all is taken as a text column). *)
Definition str_accessor (cs : list cell) : result (list cell) :=
  if existsb notna cs && negb (existsb is_text cs)
  then Raise (AttributeError "Can only use .str accessor with string values!")
  else Ok cs.

(** Lines 156-165. *)
Definition coverage (filtered_df : DataFrame) : result Coverage :=
  st ←! column_index (ValueError "not 1-dimensional") "search_term" filtered_df;
  terms ←! str_accessor (cell_at st <$> data filtered_df);
  kw ←! column_index (ValueError "not 1-dimensional") "keyword" filtered_df;
  let keywords : gset (option string) :=
    list_to_set ((λ r, Some (clean_kw (cell_at kw r))) <$> data filtered_df)
      ∖ {[ Some ""%string ]} in
  let search_terms : gset (option string) :=
    list_to_set (search_term_clean <$> terms) in
  let uncovered := search_terms ∖ keywords in
  Ok {| all_keywords := keywords;
        all_search_terms := search_terms;
        uncovered_terms := uncovered;
        uncovered_rows :=
          filter (λ r, search_term_clean (cell_at st r) ∈ uncovered)
                 (data filtered_df) |}.

End Coverage_analyzer.

(** ** Insight Requester (lines 212-261) *)

(** A decoded JSON document, as [response.json()] returns it: [JObject]
    lists the items of a dict, one per key. *)
Inductive json :=
  | JNull
  | JBool (b : bool)
  | JNumber (x : float64)
  | JString (s : string)
  | JArray (items : list json)
  | JObject (members : list (string * json)).

Fixpoint is_substring (needle s : string) : bool :=
  String.prefix needle s ||
  match s with
  | EmptyString => false
  | String _ s' => is_substring needle s'
  end.

Definition not_subscriptable : exn := TypeError "object is not subscriptable".

(** [key in v] for a text key. *)
Definition py_in (key : string) (v : json) : result bool :=
  match v with
  | JObject members => Ok (bool_decide (key ∈ members.*1))
  | JArray items =>
      Ok (existsb (λ x, match x with JString s => bool_decide (s = key) | _ => false end) items)
  | JString s => Ok (is_substring key s)
  | _ => Raise (TypeError "argument is not iterable")
  end.

(** [v[key]] for a text key. *)
Definition getitem (key : string) (v : json) : result json :=
  match v with
  | JObject members =>
      match list_find (λ kv, kv.1 = key) members with
      | Some (_, (_, x)) => Ok x
      | None => Raise (KeyError key)
      end
  | JArray _ => Raise (TypeError "list indices must be integers or slices, not str")
  | JString _ => Raise (TypeError "string indices must be integers, not 'str'")
  | _ => Raise not_subscriptable
  end.

(** [v[0]]. *)
Definition getitem_0 (v : json) : result json :=
  match v with
  | JArray (x :: _) => Ok x
  | JArray [] => Raise (IndexError "list index out of range")
  | JString (String a _) => Ok (JString (String a EmptyString))
  | JString EmptyString => Raise (IndexError "string index out of range")
  | JObject _ => Raise (KeyError "0")
  | _ => Raise not_subscriptable
  end.

(** The one request the handler sends. *)
Record Request := {
  url : string;
  authorization : string;
  model : string;
  max_tokens : nat;
  campaign_name : string;
  terms_list : list cell
}.

(** What the handler shows: [st.success] with the content, or [st.error]
    with the raw response (line 258) or the exception (line 261). *)
Inductive diagnostic :=
  | ResponseError (raw : json)
  | RequestFailed (e : exn).

Inductive display :=
  | Success (body : json)
  | Failure (d : diagnostic).

(** The name under which line 229 looks the credential up. *)
Definition secret_name : string :=
  "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".

Section Insight_requester.

(** [st.secrets[name]]: the secret, or the exception of the lookup. *)
Variable secrets : string → result string.
(** [requests.post]: a transport exception, or a response, whose [.json()]
    is a decoding exception or a document. *)
Variable post : Request → result (result json).

(** Lines 216-245: the request, for a secret that was found. *)
Definition build_request (api_key : string) (terms : list cell) (campaign_sel : string) : Request :=
  {| url := "https://openrouter.ai/api/v1/chat/completions";
     authorization := "Bearer " +:+ api_key;
     model := "meta-llama/llama-3.3-70b-instruct:free";
     max_tokens := 400;
     campaign_name :=
       if decide (campaign_sel ≠ "All"%string) then campaign_sel else "all campaigns"%string;
     terms_list := terms |}.

(** The body of the [try] block, lines 215-258. *)
Definition request_insights (terms : list cell) (campaign_sel : string) : result display :=
  api_key ←! secrets secret_name;
  response ←! post (build_request api_key terms campaign_sel);
  result ←! response;
  has_choices ←! py_in "choices" result;
  if has_choices then
    choices ←! getitem "choices" result;
    first ←! getitem_0 choices;
    message ←! getitem "message" first;
    content ←! getitem "content" message;
    Ok (Success content)
  else Ok (Failure (ResponseError result)).

(** The handler with its [except Exception] clause, lines 214-261. *)
Definition generate_insights (terms : list cell) (campaign_sel : string) : display :=
  match request_insights terms campaign_sel with
  | Ok shown => shown
  | Raise e => Failure (RequestFailed e)
  end.

End Insight_requester.

(** ** Instances for the examples *)

(** A reader of plain integer literals (an optional minus sign, then
    digits), on which it agrees with pandas; the examples use it where the
    pipeline takes the literal reader. *)
Definition digit_value (a : ascii) : option Z :=
  let n := Z.of_N (N_of_ascii a) in
  if decide (48 ≤ n ≤ 57)%Z then Some (n - 48)%Z else None.

Fixpoint digits_value (acc : Z) (s : string) : option Z :=
  match s with
  | EmptyString => Some acc
  | String a s' => d ← digit_value a; digits_value (10 * acc + d) s'
  end.

Definition parse_integer (s : string) : option float64 :=
  match s with
  | EmptyString => None
  | String "-" EmptyString => None
  | String "-" s' => (λ z, F64.of_Z (- z)) <$> digits_value 0 s'
  | _ => F64.of_Z <$> digits_value 0 s
  end.

(** Lowering and trimming of ASCII text, on which they agree with Python. *)
Definition ascii_lower (a : ascii) : ascii :=
  let n := N_of_ascii a in
  if decide (65 ≤ n ≤ 90)%N then ascii_of_N (n + 32) else a.

Fixpoint lower (s : string) : string :=
  match s with
  | EmptyString => EmptyString
  | String a s' => String (ascii_lower a) (lower s')
  end.

Fixpoint lstrip (s : string) : string :=
  match s with
  | String a s' => if Ascii.is_space a then lstrip s' else s
  | EmptyString => EmptyString
  end.

Fixpoint rstrip (s : string) : string :=
  match s with
  | EmptyString => EmptyString
  | String a s' =>
      match rstrip s' with
      | EmptyString => if Ascii.is_space a then EmptyString else String a EmptyString
      | t => String a t
      end
  end.

Definition strip (s : string) : string := rstrip (lstrip s).

Definition no_float_text (x : float64) : string := "nan".

(** Two uploads: a report with a negative interaction count and a row
    without search term, and a file the reader rejects. *)
Definition report_a : UploadedFile :=
  {| name := "a.csv";
     parsed := Ok {| header := ["Search term"; "Keyword"; "Campaign"; "Impr."; "Interactions"; "Cost"]%string;
                     records := [["buy shoes"; "[shoes]"; "Spring"; "100"; "10"; "5"];
                                 ["cheap boots"; ""; "Spring"; "50"; "-3"; "n/a"];
                                 [""; "boots"; "Spring"; "7"; "1"; "2"]]%string |} |}.

Definition report_bad : UploadedFile :=
  {| name := "bad.csv"; parsed := Raise (OtherError "No columns to parse from file") |}.

Definition dataset_a : DataFrame :=
  {| columns := ["Search term"; "Keyword"; "Campaign"; "Impr."; "Interactions"; "Cost"; "account"]%string;
     data := [[Str "buy shoes"; Str "[shoes]"; Str "Spring";
               Num (F64.of_Z 100); Num (F64.of_Z 10); Num (F64.of_Z 5); Str "a.csv"];
              [Str "cheap boots"; NaN; Str "Spring";
               Num (F64.of_Z 50); Num (F64.of_Z (-3)); NaN; Str "a.csv"];
              [NaN; Str "boots"; Str "Spring";
               Num (F64.of_Z 7); Num (F64.of_Z 1); Num (F64.of_Z 2); Str "a.csv"]] |}.

Definition normalized_a : DataFrame :=
  {| columns := ["search_term"; "keyword"; "campaign"; "impressions"; "clicks"; "cost"; "account"]%string;
     data := [[Str "buy shoes"; Str "[shoes]"; Str "Spring";
               Num (F64.of_Z 100); Num (F64.of_Z 10); Num (F64.of_Z 5); Str "a.csv"];
              [Str "cheap boots"; NaN; Str "Spring";
               Num (F64.of_Z 50); Num (F64.of_Z (-3)); Num F64.zero; Str "a.csv"]] |}.

(** A Dataset of two accounts: the campaigns of the first report are names,
    those of the second are years, which the reader took for numbers. *)
Definition two_accounts : DataFrame :=
  {| columns := ["search_term"; "keyword"; "campaign"; "impressions"; "clicks"; "cost"; "account"]%string;
     data := [[Str "buy shoes"; Str "[shoes]"; Str "Spring";
               Num (F64.of_Z 100); Num (F64.of_Z 10); Num (F64.of_Z 5); Str "a.csv"];
              [Str "cheap boots"; NaN; Str "Summer";
               Num (F64.of_Z 50); Num (F64.of_Z 3); Num F64.zero; Str "a.csv"];
              [Str "wool socks"; Str "socks"; Num (F64.of_Z 2024);
               Num (F64.of_Z 8); Num (F64.of_Z 2); Num (F64.of_Z 4); Str "b.csv"];
              [Str "free socks"; Str "socks"; Num (F64.of_Z 2025);
               Num (F64.of_Z 9); Num (F64.of_Z 3); Num (F64.of_Z 6); Str "b.csv"]] |}.

(** Its rows for the account b.csv, and for the campaign 2024 of it. *)
Definition account_b : DataFrame :=
  {| columns := columns two_accounts; data := drop 2 (data two_accounts) |}.

Definition campaign_2024 : DataFrame :=
  {| columns := columns two_accounts; data := take 1 (drop 2 (data two_accounts)) |}.

(** A filtered frame with a keyword that was shown but never clicked, and a
    keyword with clicks against no recorded impression. *)
Definition filtered_b : DataFrame :=
  {| columns := ["search_term"; "keyword"; "campaign"; "impressions"; "clicks"; "cost"; "account"]%string;
     data := [[Str "buy shoes"; Str "[shoes]"; Str "Spring";
               Num (F64.of_Z 100); Num (F64.of_Z 10); Num (F64.of_Z 5); Str "b.csv"];
              [Str "cheap boots"; Str "boots"; Str "Spring";
               Num (F64.of_Z 50); Num F64.zero; Num F64.zero; Str "b.csv"];
              [Str "free socks"; Str "socks"; Str "Spring";
               Num F64.zero; Num (F64.of_Z 3); Num (F64.of_Z 6); Str "b.csv"];
              [Str "wool socks"; NaN; Str "Spring";
               Num (F64.of_Z 8); Num (F64.of_Z 2); Num (F64.of_Z 4); Str "b.csv"]] |}.

(** The rows of the Keyword Summary of [filtered_b]. *)
Definition shoes_row : KeywordSummary :=
  {| totals := {| keyword := Str "[shoes]"; total_search_terms := 1;
                  total_impressions := F64.of_Z 100; total_clicks := F64.of_Z 10;
                  total_cost := F64.of_Z 5 |};
     CTR := F64.div (F64.of_Z 10) (F64.of_Z 100);
     CPC := F64.div (F64.of_Z 5) (F64.of_Z 10) |}.

Definition boots_row : KeywordSummary :=
  {| totals := {| keyword := Str "boots"; total_search_terms := 1;
                  total_impressions := F64.of_Z 50; total_clicks := F64.zero;
                  total_cost := F64.zero |};
     CTR := F64.zero;
     CPC := F64.nan |}.

Definition socks_row : KeywordSummary :=
  {| totals := {| keyword := Str "socks"; total_search_terms := 1;
                  total_impressions := F64.zero; total_clicks := F64.of_Z 3;
                  total_cost := F64.of_Z 6 |};
     CTR := F64.inf;
     CPC := F64.of_Z 2 |}.

Definition summary_b : list KeywordSummary := [shoes_row; boots_row; socks_row].

(** A session in which the secret is configured and the endpoint answers
    with one choice. *)
Definition secrets_ok (name : string) : result string :=
  if decide (name = secret_name) then Ok "key"%string else Raise (KeyError name).

Definition reply_ok : json :=
  JObject [("id"%string, JString "gen-1");
           ("choices"%string,
            JArray [JObject [("message"%string,
                              JObject [("role"%string, JString "assistant");
                                       ("content"%string, JString "Bid on boots.")])]])].

Definition post_ok (_ : Request) : result (result json) := Ok (Ok reply_ok).

(** A report of eighteen search terms, the odd ones clicked twice and the
    even ones once (what the reader hands over once the banner lines are
    skipped), the Dataset Ingestion builds from it, and its normalized
    frame. *)
Definition term_names : list string :=
  ["t01"; "t02"; "t03"; "t04"; "t05"; "t06"; "t07"; "t08"; "t09"; "t10";
   "t11"; "t12"; "t13"; "t14"; "t15"; "t16"; "t17"; "t18"]%string.

Definition tied_report : UploadedFile :=
  {| name := "ties.csv";
     parsed := Ok {| header := ["Search term"; "Keyword"; "Campaign"; "Ad group";
                                "Match type"; "Impr."; "Interactions"; "Cost"]%string;
                     records := imap (λ i n, [n; "boots"; "Spring"; "Boots"; "Broad match";
                                              "9"; if Nat.even i then "2" else "1"; "1"]%string)
                                     term_names |} |}.

Definition tied_rows : list (list cell) :=
  imap (λ i n, [Str n; Str "boots"; Str "Spring"; Str "Boots"; Str "Broad match";
                Num (F64.of_Z 9); Num (F64.of_Z (if Nat.even i then 2 else 1));
                Num (F64.of_Z 1); Str "ties.csv"]) term_names.

Definition tied_dataset : DataFrame :=
  {| columns := ["Search term"; "Keyword"; "Campaign"; "Ad group"; "Match type";
                 "Impr."; "Interactions"; "Cost"; "account"]%string;
     data := tied_rows |}.

Definition tied : DataFrame :=
  {| columns := ["search_term"; "keyword"; "campaign"; "ad_group"; "match_type";
                 "impressions"; "clicks"; "cost"; "account"]%string;
     data := tied_rows |}.

(** The candidate row of the [n]-th term, counted from 1. *)
Definition tied_group (n : nat) : TermTotals :=
  {| term := Str (default ""%string (term_names !! (n - 1)));
     clicks := F64.of_Z (if Nat.odd n then 2 else 1);
     impressions := F64.of_Z 9 |}.

Definition tied_groups : list TermTotals := tied_group <$> seq 1 18.

(** Three descending arrangements of these candidates, by the number of the
    term.  [stable_order] keeps equal clicks in group order.
    [quicksort_order] is what line 133 gives with numpy's quicksort: pandas
    hands it the clicks in reverse and reverses the outcome; on more than 17
    keys the kernel partitions around a median of three before it sorts by
    insertion, and the partition exchanges equal keys.  [network_order] is
    what it gives when the kernel is a bitonic merging network over the keys
    padded to 32, as the vectorised builds use for short arrays. *)
Definition stable_order : list nat :=
  [1; 3; 5; 7; 9; 11; 13; 15; 17; 2; 4; 6; 8; 10; 12; 14; 16; 18].

Definition quicksort_order : list nat :=
  [1; 13; 3; 17; 5; 7; 15; 9; 11; 16; 14; 10; 12; 2; 8; 6; 4; 18].

Definition network_order : list nat :=
  [1; 3; 15; 5; 9; 7; 13; 17; 11; 2; 10; 8; 4; 6; 14; 12; 16; 18].

(** Sixteen search terms, the i-th with 17 - i clicks; the last one, with a
    single click, comes from a row without keyword.  [ranked_at cost] is the
    frame in which that row has the given cost. *)
Definition with_keyword : list (string * Z) :=
  [("t01", 16); ("t02", 15); ("t03", 14); ("t04", 13); ("t05", 12);
   ("t06", 11); ("t07", 10); ("t08", 9); ("t09", 8); ("t10", 7);
   ("t11", 6); ("t12", 5); ("t13", 4); ("t14", 3); ("t15", 2)]%string%Z.

Definition without_keyword (cost : Z) : list cell :=
  [Str "t16"; NaN; Num (F64.of_Z 5); Num (F64.of_Z 1); Num (F64.of_Z cost)].

Definition ranked_at (cost : Z) : DataFrame :=
  {| columns := ["search_term"; "keyword"; "impressions"; "clicks"; "cost"]%string;
     data := ((λ p, [Str p.1; Str "kw"; Num (F64.of_Z 5); Num (F64.of_Z p.2);
                     Num (F64.of_Z 1)]) <$> with_keyword)
             ++ [without_keyword cost] |}.

Definition ranked_groups : list TermTotals :=
  ((λ p, {| term := Str p.1; clicks := F64.of_Z p.2; impressions := F64.of_Z 5 |})
   <$> with_keyword)
  ++ [{| term := Str "t16"; clicks := F64.of_Z 1; impressions := F64.of_Z 5 |}].

(** The row of [filtered_b] that has no keyword. *)
Definition wool_socks : list cell :=
  [Str "wool socks"; NaN; Str "Spring";
   Num (F64.of_Z 8); Num (F64.of_Z 2); Num (F64.of_Z 4); Str "b.csv"].

(** ** Term Detail (lines 109-124) *)

(** The truth value Python gives the chosen keyword in [if chosen_kw:]: an
    empty text and a zero are false, everything else (NaN too) is true. *)
Definition truthy (c : cell) : bool :=
  match c with
  | Str s => negb (bool_decide (s = ""%string))
  | Num x => negb (F64.eqb x F64.zero)
  end.

(** Line 109, [summary["keyword"].dropna().tolist()]: what the selectbox
    offers. *)
Definition keyword_options (shown : list KeywordSummary) : list cell :=
  filter (λ c, notna c) ((λ row, keyword (totals row)) <$> shown).

Record TermDetail := {
  detail_term : cell;
  detail_impressions : float64;
  detail_clicks : float64;
  detail_cost : float64
}.

(** Lines 112-120: the rows of the chosen keyword, grouped by search term. *)
Definition term_detail_groups (filtered_df : DataFrame) (chosen_kw : cell) : result (list TermDetail) :=
  kw ←! column_index (ValueError "cannot compare a frame with a scalar") "keyword" filtered_df;
  let sub := {| columns := columns filtered_df;
                data := filter (λ r, cell_eqb (cell_at kw r) chosen_kw) (data filtered_df) |} in
  st ←! column_index grouper_error "search_term" sub;
  im ←! column_index grouper_error "impressions" sub;
  cl ←! column_index grouper_error "clicks" sub;
  co ←! column_index grouper_error "cost" sub;
  Ok ((λ k, let g := group_rows st k (data sub) in
            {| detail_term := k;
               detail_impressions := agg_sum (cell_at im <$> g);
               detail_clicks := agg_sum (cell_at cl <$> g);
               detail_cost := agg_sum (cell_at co <$> g) |})
      <$> group_keys st (data sub)).

Definition by_detail_clicks_desc (a b : TermDetail) : Prop :=
  desc (detail_clicks a) (detail_clicks b).

#[global] Instance by_detail_clicks_desc_dec : RelDecision by_detail_clicks_desc.
Proof. intros a b. unfold by_detail_clicks_desc. apply _. Defined.

(** The table of line 124 for a chosen keyword. *)
Definition term_details (filtered_df : DataFrame) (chosen_kw : cell) (out : list TermDetail) : Prop :=
  ∃ groups,
    term_detail_groups filtered_df chosen_kw = Ok groups ∧
    sort_values by_detail_clicks_desc groups out.

(** Lines 109-124: the selectbox yields one of its options, or nothing when
    it has none; the table is computed when the choice is true. *)
Definition term_detail_section (filtered_df : DataFrame) (shown : list KeywordSummary)
    (chosen_kw : option cell) (table : option (list TermDetail)) : Prop :=
  match chosen_kw with
  | None => keyword_options shown = [] ∧ table = None
  | Some k =>
      k ∈ keyword_options shown ∧
      if truthy k then ∃ out, table = Some out ∧ term_details filtered_df k out
      else table = None
  end.

(** ** Coverage gap tables (lines 165-191) *)

Record UncoveredTotals := {
  gap_term : cell;
  gap_impressions : float64;
  gap_clicks : float64;
  gap_cost : float64
}.

(** Lines 170-177: the uncovered rows grouped by search term. *)
Definition uncovered_groups (filtered_df : DataFrame) (uncovered : list (list cell)) : result (list UncoveredTotals) :=
  st ←! column_index grouper_error "search_term" filtered_df;
  im ←! column_index grouper_error "impressions" filtered_df;
  cl ←! column_index grouper_error "clicks" filtered_df;
  co ←! column_index grouper_error "cost" filtered_df;
  Ok ((λ k, let g := group_rows st k uncovered in
            {| gap_term := k;
               gap_impressions := agg_sum (cell_at im <$> g);
               gap_clicks := agg_sum (cell_at cl <$> g);
               gap_cost := agg_sum (cell_at co <$> g) |})
      <$> group_keys st uncovered).

(** Two values of a sort key that rank the same. *)
Definition same_rank (x y : float64) : Prop :=
  (F64.is_nan x ∧ F64.is_nan y) ∨ F64.eqb x y.

(** Line 178: clicks descending, then impressions descending (with two
    keys pandas keeps equal rows in their order; the relation admits that
    arrangement among the ordered ones). *)
Definition by_clicks_then_impressions (a b : UncoveredTotals) : Prop :=
  desc (gap_clicks a) (gap_clicks b) ∧
  (same_rank (gap_clicks a) (gap_clicks b) → desc (gap_impressions a) (gap_impressions b)).

Definition detail_columns : list string :=
  ["search_term"; "match_type"; "campaign"; "ad_group"; "impressions"; "clicks";
   "cost"; "keyword"]%string.

(** Position 5 of a row of the detailed list is its clicks. *)
Definition by_detail_row_clicks_desc (a b : list cell) : Prop :=
  desc (cell_number (cell_at 5 a)) (cell_number (cell_at 5 b)).

(** What the section shows: the notice of line 168, or the two tables. *)
Inductive gap_view :=
  | AllCovered
  | Gaps (aggregated : list UncoveredTotals) (detailed : DataFrame).

Section Coverage_gap.

Variable str_lower : string → string.
Variable str_strip : string → string.
Variable str_of_float : float64 → string.

Definition coverage_gap (filtered_df : DataFrame) (view : gap_view) : Prop :=
  ∃ cov,
    coverage str_lower str_strip str_of_float filtered_df = Ok cov ∧
    match view with
    | AllCovered => uncovered_rows cov = []
    | Gaps aggregated detailed =>
        uncovered_rows cov ≠ [] ∧
        (∃ groups,
           uncovered_groups filtered_df (uncovered_rows cov) = Ok groups ∧
           sort_values by_clicks_then_impressions groups aggregated) ∧
        ∃ ixs,
          column_indexes detail_columns filtered_df = Ok ixs ∧
          columns detailed = detail_columns ∧
          sort_values by_detail_row_clicks_desc
            (project ixs <$> uncovered_rows cov) (data detailed)
    end.

End Coverage_gap.

(** Frames for the error paths of Normalization: a report without any
    impressions column, and one that has the vendor label and the canonical
    label at once. *)
Definition no_impressions : DataFrame :=
  {| columns := ["Search term"; "Interactions"; "Cost"]%string;
     data := [[Str "buy shoes"; Num (F64.of_Z 10); Num (F64.of_Z 5)]] |}.

Definition twice_impressions : DataFrame :=
  {| columns := ["Search term"; "Impr."; "impressions"; "Interactions"; "Cost"]%string;
     data := [[Str "buy shoes"; Num (F64.of_Z 100); Num (F64.of_Z 100);
               Num (F64.of_Z 10); Num (F64.of_Z 5)]] |}.

(** The Term Detail table of the keyword boots in [filtered_b]. *)
Definition boots_detail : list TermDetail :=
  [{| detail_term := Str "cheap boots"; detail_impressions := F64.of_Z 50;
      detail_clicks := F64.zero; detail_cost := F64.zero |}].

(** A Mapping of [filtered_b]. *)
Definition mapping_b : DataFrame :=
  {| columns := mapping_columns;
     data := [[Str "buy shoes"; Str "[shoes]"; Num (F64.of_Z 100); Num (F64.of_Z 10);
               Num (F64.of_Z 5)];
              [Str "free socks"; Str "socks"; Num F64.zero; Num (F64.of_Z 3);
               Num (F64.of_Z 6)];
              [Str "wool socks"; NaN; Num (F64.of_Z 8); Num (F64.of_Z 2);
               Num (F64.of_Z 4)];
              [Str "cheap boots"; Str "boots"; Num (F64.of_Z 50); Num F64.zero;
               Num F64.zero]] |}.

(** A filtered frame with every column of the detailed list: the first
    search term is no keyword, the second is the keyword itself. *)
Definition filtered_c : DataFrame :=
  {| columns := detail_columns;
     data := [[Str "buy shoes"; Str "Broad match"; Str "Spring"; Str "Group 1";
               Num (F64.of_Z 100); Num (F64.of_Z 10); Num (F64.of_Z 5); Str "[shoes]"];
              [Str "Shoes "; Str "Exact match"; Str "Spring"; Str "Group 1";
               Num (F64.of_Z 40); Num (F64.of_Z 4); Num (F64.of_Z 2); Str "[shoes]"]] |}.

Definition gaps_c : list UncoveredTotals :=
  [{| gap_term := Str "buy shoes"; gap_impressions := F64.of_Z 100;
      gap_clicks := F64.of_Z 10; gap_cost := F64.of_Z 5 |}].

Definition detailed_c : DataFrame :=
  {| columns := detail_columns;
     data := [[Str "buy shoes"; Str "Broad match"; Str "Spring"; Str "Group 1";
               Num (F64.of_Z 100); Num (F64.of_Z 10); Num (F64.of_Z 5); Str "[shoes]"]] |}.

Definition top_groups_c : list TermTotals :=
  [{| term := Str "Shoes "; clicks := F64.of_Z 4; impressions := F64.of_Z 40 |};
   {| term := Str "buy shoes"; clicks := F64.of_Z 10; impressions := F64.of_Z 100 |}].

(** An answer of the endpoint that lacks the expected shape. *)
Definition reply_no_choice : json :=
  JObject [("id"%string, JString "gen-2"); ("choices"%string, JArray [])].

Definition post_no_choice (_ : Request) : result (result json) := Ok (Ok reply_no_choice).

(** * Properties *)

(** ** The order of float64 *)

Ltac float_cases :=
  repeat match goal with
  | |- context [Z.compare ?a ?b] => destruct (Z.compare_spec a b); simpl
  | H : context [Z.compare ?a ?b] |- _ => destruct (Z.compare_spec a b); simpl in H
  | |- context [Pos.compare ?a ?b] => destruct (Pos.compare_spec a b); simpl
  | H : context [Pos.compare ?a ?b] |- _ => destruct (Pos.compare_spec a b); simpl in H
  end.

Lemma f64_leb_total x y :
  F64.is_nan x = false → F64.is_nan y = false →
  F64.leb x y = true ∨ F64.leb y x = true.
Proof.
  unfold F64.leb, SFleb.
  destruct x as [[]|[]| |[] mx ex], y as [[]|[]| |[] my ey]; simpl; try done;
    try (by left); try (by right); intros _ _;
    change (Pos.compare_cont Eq) with Pos.compare;
    float_cases; try (by left); try (by right); lia.
Qed.

Lemma f64_leb_trans x y z :
  F64.leb x y = true → F64.leb y z = true → F64.leb x z = true.
Proof.
  unfold F64.leb, SFleb.
  destruct x as [[]|[]| |[] mx ex], y as [[]|[]| |[] my ey],
           z as [[]|[]| |[] mz ez]; simpl; try done;
    change (Pos.compare_cont Eq) with Pos.compare;
    intros H1 H2; float_cases; try done; lia.
Qed.

Lemma f64_eqb_refl x : F64.is_nan x = false → F64.eqb x x = true.
Proof.
  unfold F64.eqb, SFeqb. destruct x as [[]|[]| |[] mx ex]; simpl; try done; intros _;
    change (Pos.compare_cont Eq) with Pos.compare;
    by rewrite Z.compare_refl, Pos.compare_refl.
Qed.

#[global] Instance desc_total : Total desc.
Proof.
  intros x y. unfold desc.
  destruct (F64.is_nan x) eqn:Hx; [right; by left|].
  destruct (F64.is_nan y) eqn:Hy; [left; by left|].
  destruct (f64_leb_total x y Hx Hy) as [H|H]; [right|left]; right;
    rewrite H; (split; [intros []|exact I]).
Qed.

#[global] Instance desc_trans : Transitive desc.
Proof.
  intros x y z. unfold desc. intros [Hy|[Hx Hyx]] [Hz|[Hy' Hzy]].
  - by left.
  - exfalso. by apply Hy'.
  - by left.
  - right. split; [done|]. apply Is_true_true.
    apply Is_true_true in Hyx, Hzy. by eapply f64_leb_trans.
Qed.

(** ** Sorting *)

Section Sorting_facts.

Context {A : Type} (before : A → A → Prop) `{!RelDecision before}.

Lemma insert_by_perm a l : insert_by before a l ≡ₚ a :: l.
Proof.
  induction l as [|b l IH]; simpl; [done|].
  case_decide; [done|]. rewrite IH. apply perm_swap.
Qed.

Lemma stable_sort_perm l : stable_sort before l ≡ₚ l.
Proof.
  induction l as [|a l IH]; simpl; [done|].
  unfold stable_sort in *. simpl. by rewrite insert_by_perm, IH.
Qed.

Lemma insert_by_sorted `{!Total before, !Transitive before} a l :
  StronglySorted before l → StronglySorted before (insert_by before a l).
Proof.
  induction 1 as [|b l Hl IH Hb]; simpl; [repeat constructor|].
  case_decide as Hab.
  - constructor; [by constructor|]. constructor; [done|].
    eapply Forall_impl; [exact Hb|]. intros c Hbc. by etrans.
  - constructor; [done|].
    rewrite insert_by_perm. constructor; [|done].
    by destruct (total before a b).
Qed.

Lemma stable_sort_sorted `{!Total before, !Transitive before} l :
  StronglySorted before (stable_sort before l).
Proof.
  induction l as [|a l IH]; [constructor|]. by apply insert_by_sorted.
Qed.

(** A sorted rearrangement exists: the stable sort is one. *)
Lemma sort_values_stable `{!Total before, !Transitive before} l :
  sort_values before l (stable_sort before l).
Proof. split; [apply stable_sort_perm|apply stable_sort_sorted]. Qed.

End Sorting_facts.

(** ** Column positions *)

Lemma elem_of_positions_from n col cols i :
  i ∈ positions_from n col cols ↔ n ≤ i ∧ cols !! (i - n) = Some col.
Proof.
  revert n. induction cols as [|c cs IH]; intros n; simpl.
  - rewrite elem_of_nil. naive_solver.
  - case_decide as Hc; [rewrite elem_of_cons|]; rewrite IH; split.
    + intros [->|[Hle Hl]].
      * split; [lia|]. by rewrite Nat.sub_diag, Hc.
      * split; [lia|]. by replace (i - n) with (S (i - S n)) by lia.
    + intros [Hle Hl]. destruct (decide (i = n)) as [->|Hne]; [by left|right].
      split; [lia|]. by replace (i - n) with (S (i - S n)) in Hl by lia.
    + intros [Hle Hl]. split; [lia|].
      by replace (i - n) with (S (i - S n)) by lia.
    + intros [Hle Hl]. destruct (decide (i = n)) as [->|Hne].
      * rewrite Nat.sub_diag in Hl. naive_solver.
      * split; [lia|]. by replace (i - n) with (S (i - S n)) in Hl by lia.
Qed.

Lemma elem_of_positions col df i :
  i ∈ positions col df ↔ columns df !! i = Some col.
Proof.
  unfold positions. rewrite elem_of_positions_from, Nat.sub_0_r.
  split; [naive_solver|]. intros; split; [lia|done].
Qed.

Lemma positions_columns col df1 df2 :
  columns df1 = columns df2 → positions col df1 = positions col df2.
Proof. unfold positions. by intros ->. Qed.

Lemma column_index_Ok dup col df i :
  column_index dup col df = Ok i → positions col df = [i].
Proof.
  unfold column_index. destruct (positions col df) as [|i' [|??]]; naive_solver.
Qed.

Lemma index_of_Some col cols i :
  index_of col cols = Some i → cols !! i = Some col.
Proof.
  unfold index_of. destruct (list_find _ cols) as [[i' c]|] eqn:Hf; [|done].
  simpl. intros [= ->]. apply list_find_Some in Hf. naive_solver.
Qed.

(** ** Renaming *)

Lemma rename_label_cases c :
  (c ∈ (fst <$> rename_map) ∧ rename_label c ∈ (snd <$> rename_map)) ∨
  ((c ∉ (fst <$> rename_map)) ∧ rename_label c = c).
Proof.
  destruct (decide (c ∈ (fst <$> rename_map))) as [Hin|Hin]; [left|right]; split; try done.
  - simpl in Hin. set_unfold in Hin.
    repeat destruct Hin as [->|Hin]; try done;
      apply (bool_decide_unpack _); vm_compute; exact I.
  - unfold rename_label. destruct (list_find _ _) as [[i [k v]]|] eqn:Hf; [|done].
    apply list_find_Some in Hf as (Hi & Hk & _). simpl in Hk. subst k.
    destruct Hin. apply list_elem_of_fmap. exists (c, v). split; [done|].
    by eapply list_elem_of_lookup_2.
Qed.

Lemma rename_label_idemp c : rename_label (rename_label c) = rename_label c.
Proof.
  destruct (rename_label_cases c) as [[_ Hv]|[_ Hc]]; [|by rewrite !Hc].
  simpl in Hv. set_unfold in Hv.
  repeat destruct Hv as [Hv|Hv]; try done; by rewrite Hv.
Qed.

Lemma rename_label_account c : rename_label c = "search_term"%string → c ≠ "account"%string.
Proof. by intros H ->. Qed.

(** ** Cleaning one cell *)

Section Normalization_facts.

Variable parse_number : string → option float64.

Local Abbreviation clean := (clean_number parse_number).
Local Abbreviation cleaned_at := (cleaned_at parse_number).
Local Abbreviation keep ps := (λ r : list cell, forallb (λ p, notna (cell_at p r)) ps).

Lemma clean_number_Num c : ∃ x, clean c = Num x ∧ F64.is_nan x = false.
Proof.
  unfold clean_number, fillna0.
  destruct (isna (to_numeric parse_number c)) eqn:Hna; [by exists F64.zero|].
  destruct c as [x|s]; simpl in *; [by exists x|].
  destruct (parse_number s) as [x|]; [by exists x|done].
Qed.

Lemma clean_number_idemp c : clean (clean c) = clean c.
Proof.
  destruct (clean_number_Num c) as (x & -> & Hx).
  unfold clean_number, fillna0. simpl. by rewrite Hx.
Qed.

Lemma clean_number_fixed c : clean c = c ↔ ∃ x, c = Num x ∧ F64.is_nan x = false.
Proof.
  split.
  - intros <-. apply clean_number_Num.
  - intros (x & -> & Hx). unfold clean_number, fillna0. simpl. by rewrite Hx.
Qed.

Lemma cleaned_at_alter i j (r : list cell) :
  (i = j ∨ cleaned_at i r) → cleaned_at i (alter clean j r).
Proof.
  intros H c. destruct (decide (j = i)) as [->|Hne].
  - rewrite list_lookup_alter_eq. destruct (r !! i) as [c'|]; simpl; [|done].
    intros [= <-]. apply clean_number_idemp.
  - rewrite list_lookup_alter_ne by done. destruct H as [->|H]; [done|]. apply H.
Qed.

Lemma alter_cleaned i (r : list cell) : cleaned_at i r → alter clean i r = r.
Proof.
  intros H. apply list_eq. intros p. destruct (decide (i = p)) as [->|Hne].
  - rewrite list_lookup_alter_eq. destruct (r !! p) as [c|] eqn:Hp; simpl; [|done].
    by rewrite (H c).
  - by rewrite list_lookup_alter_ne.
Qed.

Lemma alter_clean_Str i (r : list cell) p s :
  alter clean i r !! p = Some (Str s) → r !! p = Some (Str s).
Proof.
  destruct (decide (i = p)) as [->|Hne].
  - rewrite list_lookup_alter_eq. destruct (r !! p) as [c|]; simpl; [|done].
    destruct (clean_number_Num c) as (x & -> & _). done.
  - by rewrite list_lookup_alter_ne.
Qed.

Lemma cell_at_alter_ne i p (r : list cell) : i ≠ p → cell_at p (alter clean i r) = cell_at p r.
Proof. intros. unfold cell_at. by rewrite list_lookup_alter_ne. Qed.

(** ** The shape of a successful Normalization *)

Lemma clean_column_Ok col df df' :
  clean_column parse_number col df = Ok df' →
  ∃ i, positions col df = [i] ∧ columns df' = columns df ∧
       data df' = alter clean i <$> data df.
Proof.
  unfold clean_column. destruct (column_index _ col df) as [i|] eqn:Hi; [|done].
  simpl. intros [= <-]. exists i. by apply column_index_Ok in Hi.
Qed.

Lemma dropna_Ok col df df' :
  dropna col df = Ok df' →
  positions col df ≠ [] ∧ columns df' = columns df ∧
  data df' = filter (keep (positions col df)) (data df).
Proof.
  unfold dropna. destruct (positions col df) as [|p ps] eqn:Hp; [done|].
  by intros [= <-].
Qed.

Lemma normalization_Ok df df' :
  normalization parse_number df = Ok df' →
  ∃ i j k,
    positions "impressions" df' = [i] ∧ positions "clicks" df' = [j] ∧
    positions "cost" df' = [k] ∧ positions "search_term" df' ≠ [] ∧
    columns df' = rename_label <$> columns df ∧
    data df' = filter (keep (positions "search_term" df'))
                 (alter clean k <$> (alter clean j <$> (alter clean i <$> data df))).
Proof.
  unfold normalization, numeric_columns. simpl.
  destruct (clean_column parse_number "impressions" _) as [d1|] eqn:H1; [|done]. simpl.
  destruct (clean_column parse_number "clicks" _) as [d2|] eqn:H2; [|done]. simpl.
  destruct (clean_column parse_number "cost" _) as [d3|] eqn:H3; [|done]. simpl.
  intros H4.
  apply clean_column_Ok in H1 as (i & Hi & Hc1 & Hd1).
  apply clean_column_Ok in H2 as (j & Hj & Hc2 & Hd2).
  apply clean_column_Ok in H3 as (k & Hk & Hc3 & Hd3).
  apply dropna_Ok in H4 as (Hps & Hc4 & Hd4).
  assert (columns df' = rename_label <$> columns df) as Hcols
    by (rewrite Hc4, Hc3, Hc2, Hc1; done).
  exists i, j, k.
  rewrite <-Hi, <-Hj, <-Hk.
  rewrite (positions_columns "impressions" df' (rename df)) by done.
  rewrite (positions_columns "clicks" df' d1) by (by rewrite Hcols, Hc1).
  rewrite (positions_columns "cost" df' d2) by (by rewrite Hcols, Hc2, Hc1).
  rewrite (positions_columns "search_term" df' d3) by (by rewrite Hcols, Hc3, Hc2, Hc1).
  repeat split; try done.
  by rewrite Hd4, Hd3, Hd2, Hd1.
Qed.

Lemma normalization_row df df' r' :
  normalization parse_number df = Ok df' → r' ∈ data df' →
  ∃ i j k r,
    positions "impressions" df' = [i] ∧ positions "clicks" df' = [j] ∧
    positions "cost" df' = [k] ∧ r ∈ data df ∧
    r' = alter clean k (alter clean j (alter clean i r)) ∧
    keep (positions "search_term" df') r' = true.
Proof.
  intros (i & j & k & Hi & Hj & Hk & _ & _ & Hd)%normalization_Ok Hr'.
  rewrite Hd in Hr'. apply list_elem_of_filter in Hr' as [Hkeep Hr'].
  apply list_elem_of_fmap in Hr' as (r3 & -> & Hr').
  apply list_elem_of_fmap in Hr' as (r2 & -> & Hr').
  apply list_elem_of_fmap in Hr' as (r & -> & Hr').
  exists i, j, k, r. repeat split; try done. by apply Is_true_true.
Qed.

End Normalization_facts.

(** ** What Ingestion hands to Normalization *)

Section Ingestion_facts.

Variable parse_number : string → option float64.

Lemma read_field_not_empty numeric s : read_field parse_number numeric s ≠ Str "".
Proof.
  unfold read_field. destruct (is_na_field s) eqn:Hna; [done|].
  assert (s ≠ ""%string) by (by intros ->).
  destruct numeric; [destruct (parse_number s)|]; congruence.
Qed.

Lemma read_csv_ok f df : read_csv parse_number f = Ok df → frame_ok df.
Proof.
  unfold read_csv. destruct (parsed f) as [t|]; [|done]. simpl.
  intros [= <-] r. simpl. intros (rec & -> & _)%list_elem_of_fmap.
  split; [by rewrite length_imap|]. intros j c Hj _.
  rewrite list_lookup_imap, Hj. simpl. intros [= H].
  by apply read_field_not_empty in H.
Qed.

Lemma set_column_account_ok v df :
  frame_ok df → frame_ok (set_column "account" v df).
Proof.
  intros Hok. unfold set_column.
  destruct (index_of "account" (columns df)) as [i|] eqn:Hi; simpl;
    intros r' (r & -> & Hr)%list_elem_of_fmap; destruct (Hok r Hr) as [Hlen Hcells]; simpl.
  - apply index_of_Some in Hi. split; [by rewrite length_insert|].
    intros j c Hj Hc. destruct (decide (i = j)) as [->|Hne]; [congruence|].
    rewrite list_lookup_insert_ne by done. by eapply Hcells.
  - split; [rewrite !length_app; simpl; lia|].
    intros j c Hj Hc. apply lookup_app_Some in Hj as [Hj|[Hge Hj]].
    + rewrite lookup_app_l by (rewrite Hlen; by eapply lookup_lt_Some).
      by eapply Hcells.
    + apply list_lookup_singleton_Some in Hj as [_ <-]. done.
Qed.

Lemma load_files_ok files : Forall frame_ok (load_files parse_number files).2.
Proof.
  induction files as [|f fs IH]; simpl; [constructor|].
  destruct (load_files parse_number fs) as [shown dfs]. simpl in IH.
  destruct (read_csv parse_number f) as [df|e] eqn:Hf; simpl; [|done].
  constructor; [|done]. apply set_column_account_ok. by eapply read_csv_ok.
Qed.

Lemma reindex_ok cols df r :
  frame_ok df → r ∈ reindex cols df →
  length r = length cols ∧
  ∀ j c, cols !! j = Some c → c ≠ "account"%string → r !! j ≠ Some (Str "").
Proof.
  intros Hok (r0 & -> & Hr0)%list_elem_of_fmap. split; [by rewrite length_fmap|].
  intros j c Hj Hc. rewrite list_lookup_fmap, Hj. simpl.
  destruct (index_of c (columns df)) as [i|] eqn:Hi; [|done].
  apply index_of_Some in Hi. destruct (Hok r0 Hr0) as [_ Hcells].
  specialize (Hcells i c Hi Hc). unfold cell_at.
  destruct (r0 !! i) as [c0|]; simpl; [|done]. congruence.
Qed.

Lemma first_seen_NoDup cols : NoDup (first_seen cols).
Proof. unfold first_seen. rewrite reverse_Permutation. apply NoDup_remove_dups. Qed.

Lemma elem_of_first_seen cols c : c ∈ first_seen cols ↔ c ∈ cols.
Proof. unfold first_seen. by rewrite elem_of_reverse, elem_of_remove_dups, elem_of_reverse. Qed.

Lemma pd_concat_ok dfs df :
  Forall frame_ok dfs → pd_concat dfs = Ok df → frame_ok df.
Proof.
  intros Hall. unfold pd_concat.
  assert (frame_ok {| columns := first_seen (mjoin (columns <$> dfs));
                      data := mjoin (reindex (first_seen (mjoin (columns <$> dfs))) <$> dfs) |})
    as Hgoal.
  { intros r. simpl. intros (rs & Hr & Hrs)%list_elem_of_join.
    apply list_elem_of_fmap in Hrs as (df0 & -> & Hdf0).
    eapply reindex_ok; [|done]. rewrite Forall_forall in Hall. by apply Hall. }
  destruct dfs; [done|]. by intros [= <-].
Qed.

Lemma ingestion_ok files shown df :
  ingestion parse_number files = (shown, Continue df) → frame_ok df.
Proof.
  unfold ingestion. destruct files as [|f fs]; [done|].
  pose proof (load_files_ok (f :: fs)) as Hall.
  destruct (load_files parse_number (f :: fs)) as [shown' dfs]. simpl in Hall.
  destruct (pd_concat dfs) as [df'|] eqn:Hc; [|done].
  intros [= _ <-]. by eapply pd_concat_ok.
Qed.

End Ingestion_facts.

(** ** Normalization: the claims *)

Section Normalization_claims.

Variable parse_number : string → option float64.

Local Abbreviation clean := (clean_number parse_number).
Local Abbreviation cleaned_at := (cleaned_at parse_number).

Lemma lookup_alter_clean i (r : list cell) p :
  alter clean i r !! p = (if decide (i = p) then clean else id) <$> r !! p.
Proof.
  case_decide as Hp; [subst; apply list_lookup_alter_eq|].
  rewrite list_lookup_alter_ne by done. by destruct (r !! p).
Qed.

(** The cell a cleaned row holds at one of the cleaned positions. *)
Lemma lookup_cleaned_row i j k (r : list cell) p :
  p ∈ [i; j; k] →
  alter clean k (alter clean j (alter clean i r)) !! p = clean <$> r !! p.
Proof.
  intros Hp. rewrite !lookup_alter_clean.
  destruct (r !! p) as [c|]; simpl; [|by repeat case_decide].
  repeat case_decide; simpl; rewrite ?clean_number_idemp; try done.
  set_solver.
Qed.

Lemma cleaned_row_cleaned i j k (r : list cell) p :
  p ∈ [i; j; k] → cleaned_at p (alter clean k (alter clean j (alter clean i r))).
Proof.
  intros Hp c. rewrite lookup_cleaned_row by done.
  destruct (r !! p); simpl; [|done]. intros [= <-]. apply clean_number_idemp.
Qed.

Lemma clean_column_fixed col df i :
  positions col df = [i] → (∀ r, r ∈ data df → cleaned_at i r) →
  clean_column parse_number col df = Ok df.
Proof.
  intros Hi Hrows. unfold clean_column, column_index. rewrite Hi. simpl.
  destruct df as [cols rows]. simpl in *. f_equal. f_equal.
  induction rows as [|r rows IH]; [done|]. rewrite fmap_cons. f_equal.
  - apply alter_cleaned, Hrows. by left.
  - apply IH; [done|]. intros r' Hr'. apply Hrows. by right.
Qed.

Lemma rename_fixed df df0 :
  columns df = rename_label <$> columns df0 → rename df = df.
Proof.
  intros Hc. destruct df as [cols rows]. unfold rename. simpl in *. f_equal.
  rewrite Hc, <-list_fmap_compose. apply list_fmap_ext. intros _ c _. simpl.
  apply rename_label_idemp.
Qed.

(** C9. Normalization is idempotent: run on a frame that a Normalization
    returned, it succeeds and returns that frame unchanged. *)
Theorem normalization_idempotent df df' :
  normalization parse_number df = Ok df' →
  normalization parse_number df' = Ok df'.
Proof.
  intros Hn. pose proof Hn as (i & j & k & Hi & Hj & Hk & Hps & Hcols & Hd)%normalization_Ok.
  assert (∀ r p, r ∈ data df' → p ∈ [i; j; k] → cleaned_at p r) as Hclean.
  { intros r' p Hr' Hp.
    destruct (normalization_row _ _ _ _ Hn Hr')
      as (i' & j' & k' & r & Hi' & Hj' & Hk' & _ & -> & _).
    rewrite Hi in Hi'. rewrite Hj in Hj'. rewrite Hk in Hk'.
    simplify_eq. by apply cleaned_row_cleaned. }
  unfold normalization, numeric_columns. simpl.
  rewrite (rename_fixed df' df) by done.
  rewrite (clean_column_fixed "impressions" df' i) by (try done; intros; apply Hclean; set_solver).
  simpl.
  rewrite (clean_column_fixed "clicks" df' j) by (try done; intros; apply Hclean; set_solver).
  simpl.
  rewrite (clean_column_fixed "cost" df' k) by (try done; intros; apply Hclean; set_solver).
  simpl. unfold dropna.
  destruct (positions "search_term" df') as [|p ps] eqn:Hp; [done|].
  destruct df' as [cols rows]. simpl in *. f_equal. f_equal.
  rewrite Hd at 2. rewrite Hd. by rewrite list_filter_filter_r by done.
Qed.

(** C3. Whatever was uploaded, every row Normalization keeps has a search
    term: in each column labelled search_term the row holds a cell that is
    neither missing nor the empty text (the reader has turned empty fields
    into missing values, and [dropna] removes the rows with a missing one). *)
Theorem normalization_search_term_present files shown df df' :
  ingestion parse_number files = (shown, Continue df) →
  normalization parse_number df = Ok df' →
  positions "search_term" df' ≠ [] ∧
  ∀ r p, r ∈ data df' → p ∈ positions "search_term" df' →
    ∃ c, r !! p = Some c ∧ isna c = false ∧ c ≠ Str "".
Proof.
  intros Hing Hn. split.
  { apply normalization_Ok in Hn. naive_solver. }
  intros r' p Hr' Hp.
  destruct (normalization_row _ _ _ _ Hn Hr')
    as (i & j & k & r & _ & _ & _ & Hr & Hr'eq & Hkeep).
  apply Is_true_true, forallb_True in Hkeep.
  rewrite Forall_forall in Hkeep. specialize (Hkeep p Hp).
  unfold notna, cell_at in Hkeep.
  destruct (r' !! p) as [c|] eqn:Hc; simpl in Hkeep; [|done].
  exists c. split; [done|]. split; [by destruct (isna c)|].
  intros ->. subst r'.
  do 3 apply alter_clean_Str in Hc.
  destruct (ingestion_ok _ _ _ _ Hing r Hr) as [_ Hcells].
  apply normalization_Ok in Hn as (_ & _ & _ & _ & _ & _ & _ & Hcols & _).
  apply elem_of_positions in Hp. rewrite Hcols, list_lookup_fmap in Hp.
  destruct (columns df !! p) as [c0|] eqn:Hc0; simpl in Hp; [|done].
  injection Hp as Hp. apply (Hcells p c0); [done| |done].
  by apply rename_label_account.
Qed.

Lemma filter_fmap {A B} (f : A → B) (P : B → Prop) `{!∀ y, Decision (P y)} (l : list A) :
  filter P (f <$> l) = f <$> filter (λ x, P (f x)) l.
Proof.
  induction l as [|x l IH]; [done|]. rewrite fmap_cons, !filter_cons.
  destruct (decide (P (f x))); by rewrite IH.
Qed.

(** Cleaning the three numeric cells of a row changes no other cell. *)
Lemma lookup_cleaned_row_ne i j k (r : list cell) p :
  p ∉ [i; j; k] →
  alter clean k (alter clean j (alter clean i r)) !! p = r !! p.
Proof.
  intros Hp. rewrite !list_lookup_alter_ne; [done|set_solver..].
Qed.

(** C4, as amended. Whatever was uploaded, the normalized frame has one
    column each for impressions, clicks and cost, and its rows are, one for
    one and in order, the rows of the Dataset that have a search term: in
    each of them the three numeric cells are numbers, never missing (a cell
    that does not read as a number, or reads as NaN, has become 0, and every
    other cell holds the number it read as, of either sign), and all other
    cells are the Dataset's. *)
Theorem normalization_numeric_fields files shown df df' :
  ingestion parse_number files = (shown, Continue df) →
  normalization parse_number df = Ok df' →
  ∃ i j k,
    positions "impressions" df' = [i] ∧ positions "clicks" df' = [j] ∧
    positions "cost" df' = [k] ∧
    Forall2 (λ r r',
        (∀ p, p ∈ [i; j; k] →
           ∃ c x, r !! p = Some c ∧ r' !! p = Some (Num x) ∧
                  F64.is_nan x = false ∧
                  Num x = (if isna (to_numeric parse_number c) then Num F64.zero
                           else to_numeric parse_number c)) ∧
        (∀ p, p ∉ [i; j; k] → r' !! p = r !! p))
      (filter (λ r, forallb (λ p, notna (cell_at p r)) (positions "search_term" df'))
              (data df))
      (data df').
Proof.
  intros Hing Hn.
  pose proof Hn as (i & j & k & Hi & Hj & Hk & _ & Hcols & Hd)%normalization_Ok.
  exists i, j, k. split; [done|]. split; [done|]. split; [done|].
  assert (∀ p, p ∈ [i; j; k] → p ∉ positions "search_term" df') as Hdisj.
  { intros p Hp Hst. apply elem_of_positions in Hst.
    assert (p ∈ positions "impressions" df' ∨ p ∈ positions "clicks" df' ∨
            p ∈ positions "cost" df') as Hnum
      by (rewrite Hi, Hj, Hk; set_solver).
    rewrite !elem_of_positions in Hnum. destruct Hnum as [H|[H|H]]; congruence. }
  assert (∀ p, p ∈ [i; j; k] → p < length (columns df)) as Hlt.
  { intros p Hp.
    assert (p ∈ positions "impressions" df' ∨ p ∈ positions "clicks" df' ∨
            p ∈ positions "cost" df') as Hnum
      by (rewrite Hi, Hj, Hk; set_solver).
    rewrite !elem_of_positions in Hnum. rewrite Hcols in Hnum.
    rewrite <-(length_fmap rename_label).
    destruct Hnum as [H|[H|H]]; by eapply lookup_lt_Some. }
  assert (data df' = (λ r, alter clean k (alter clean j (alter clean i r)))
                     <$> filter (λ r, forallb (λ p, notna (cell_at p r))
                                        (positions "search_term" df')) (data df)) as ->.
  { rewrite Hd, <-!list_fmap_compose, filter_fmap. f_equal.
    apply list_filter_iff. intros r. simpl. rewrite !forallb_True, !Forall_forall.
    split; intros Hall p Hp; specialize (Hall p Hp).
    - rewrite !cell_at_alter_ne in Hall; [done|intros ->; eapply Hdisj; [|done]; set_solver..].
    - rewrite !cell_at_alter_ne; [done|intros ->; eapply Hdisj; [|done]; set_solver..]. }
  apply Forall2_fmap_r, Forall_Forall2_diag, Forall_forall.
  intros r [_ Hr]%list_elem_of_filter. simpl. split.
  - intros p Hp.
    destruct (ingestion_ok _ _ _ _ Hing r Hr) as [Hlen _].
    destruct (lookup_lt_is_Some_2 r p) as [c Hc]; [rewrite Hlen; by apply Hlt|].
    destruct (clean_number_Num parse_number c) as (x & Hx & Hnan).
    exists c, x. split; [done|]. split; [|split; [done|]].
    + rewrite lookup_cleaned_row by done. by rewrite Hc, <-Hx.
    + by rewrite <-Hx.
  - intros p Hp. by apply lookup_cleaned_row_ne.
Qed.

End Normalization_claims.

(** ** Normalization on the example uploads *)

Lemma ingestion_example :
  ingestion parse_integer [report_a; report_bad]
  = ([ErrorReading "bad.csv" (OtherError "No columns to parse from file")],
     Continue dataset_a).
Proof. vm_compute. reflexivity. Qed.

Lemma normalization_example :
  normalization parse_integer dataset_a = Ok normalized_a.
Proof. vm_compute. reflexivity. Qed.

Lemma normalization_idempotent_witness :
  normalization parse_integer dataset_a = Ok normalized_a ∧
  normalization parse_integer normalized_a = Ok normalized_a.
Proof.
  split; [exact normalization_example|].
  exact (normalization_idempotent parse_integer dataset_a normalized_a
           normalization_example).
Defined.

Lemma normalization_search_term_present_witness :
  ingestion parse_integer [report_a; report_bad]
  = ([ErrorReading "bad.csv" (OtherError "No columns to parse from file")],
     Continue dataset_a) ∧
  normalization parse_integer dataset_a = Ok normalized_a ∧
  positions "search_term" normalized_a ≠ [] ∧
  ∀ r p, r ∈ data normalized_a → p ∈ positions "search_term" normalized_a →
    ∃ c, r !! p = Some c ∧ isna c = false ∧ c ≠ Str "".
Proof.
  split; [exact ingestion_example|]. split; [exact normalization_example|].
  exact (normalization_search_term_present parse_integer _ _ _ _
           ingestion_example normalization_example).
Defined.

Lemma normalization_numeric_fields_witness :
  ingestion parse_integer [report_a; report_bad]
  = ([ErrorReading "bad.csv" (OtherError "No columns to parse from file")],
     Continue dataset_a) ∧
  normalization parse_integer dataset_a = Ok normalized_a ∧
  ∃ i j k,
    positions "impressions" normalized_a = [i] ∧ positions "clicks" normalized_a = [j] ∧
    positions "cost" normalized_a = [k] ∧
    Forall2 (λ r r',
        (∀ p, p ∈ [i; j; k] →
           ∃ c x, r !! p = Some c ∧ r' !! p = Some (Num x) ∧
                  F64.is_nan x = false ∧
                  Num x = (if isna (to_numeric parse_integer c) then Num F64.zero
                           else to_numeric parse_integer c)) ∧
        (∀ p, p ∉ [i; j; k] → r' !! p = r !! p))
      (filter (λ r, forallb (λ p, notna (cell_at p r)) (positions "search_term" normalized_a))
              (data dataset_a))
      (data normalized_a).
Proof.
  split; [exact ingestion_example|]. split; [exact normalization_example|].
  exact (normalization_numeric_fields parse_integer _ _ _ _
           ingestion_example normalization_example).
Defined.

(** C4, the claim as stated fails: the report [report_a] has -3 in its
    Interactions column; Normalization keeps the row and the number, so a
    clicks cell of the normalized frame is below zero. *)
Lemma normalization_keeps_negative_clicks :
  ingestion parse_integer [report_a; report_bad]
  = ([ErrorReading "bad.csv" (OtherError "No columns to parse from file")],
     Continue dataset_a) ∧
  normalization parse_integer dataset_a = Ok normalized_a ∧
  positions "clicks" normalized_a = [4] ∧
  ∃ r, r ∈ data normalized_a ∧
       r !! 4 = Some (Num (F64.of_Z (-3))) ∧
       F64.leb F64.zero (F64.of_Z (-3)) = false.
Proof.
  split; [exact ingestion_example|]. split; [exact normalization_example|].
  split; [reflexivity|].
  exists [Str "cheap boots"; NaN; Str "Spring";
          Num (F64.of_Z 50); Num (F64.of_Z (-3)); Num F64.zero; Str "a.csv"].
  split; [|split; reflexivity].
  unfold normalized_a. simpl. set_solver.
Qed.

(** ** Ingestion: the claims *)

Section Ingestion_claims.

Variable parse_number : string → option float64.

(** With no file the script shows the prompt and stops. *)
Lemma ingestion_no_file :
  ingestion parse_number [] = ([UploadPrompt], Stopped).
Proof. reflexivity. Qed.

Lemma load_files_shown files n :
  n ∈ (load_files parse_number files).1 →
  ∃ f e, f ∈ files ∧ parsed f = Raise e ∧ n = ErrorReading (name f) e.
Proof.
  induction files as [|f fs IH]; simpl; [intros Hn; by apply elem_of_nil in Hn|].
  destruct (load_files parse_number fs) as [shown dfs]. simpl in IH.
  unfold read_csv at 1. destruct (parsed f) as [t|e] eqn:Hf; simpl.
  - intros (f' & e' & Hin & Hrest)%IH. exists f', e'. split; [by right|done].
  - intros [->|Hn]%elem_of_cons.
    + exists f, e. split; [by left|done].
    + destruct (IH Hn) as (f' & e' & Hin & Hrest). exists f', e'.
      split; [by right|done].
Qed.

(** The prompt is shown, and the script stopped, exactly when no file was
    uploaded. *)
Lemma ingestion_prompt_iff files :
  UploadPrompt ∈ (ingestion parse_number files).1 ↔ files = [].
Proof.
  split; [|by intros ->; left].
  destruct files as [|f fs]; [done|]. unfold ingestion.
  destruct (load_files parse_number (f :: fs)) as [shown dfs] eqn:Hl. simpl.
  intros Hin. assert (UploadPrompt ∈ (load_files parse_number (f :: fs)).1) as Hin'
    by (by rewrite Hl).
  apply load_files_shown in Hin' as (? & ? & _ & _ & ?). done.
Qed.

(** The frames that were read, in upload order. *)
Lemma load_files_frames files :
  (load_files parse_number files).2
  = omap (λ f, match read_csv parse_number f with
               | Ok df => Some (set_column "account" (Str (name f)) df)
               | Raise _ => None
               end) files.
Proof.
  induction files as [|f fs IH]; [done|]. simpl.
  destruct (load_files parse_number fs) as [shown dfs]. simpl in IH.
  destruct (read_csv parse_number f); simpl; by rewrite IH.
Qed.

(** When every file is rejected the run ends on the uncaught ValueError of
    [pd.concat], whatever the number of files. *)
Lemma ingestion_none_read files :
  files ≠ [] → Forall (λ f, ∃ e, parsed f = Raise e) files →
  (ingestion parse_number files).2 = Uncaught (ValueError "No objects to concatenate").
Proof.
  intros Hne Hall. unfold ingestion. destruct files as [|f fs]; [done|].
  pose proof (load_files_frames (f :: fs)) as Hfr.
  destruct (load_files parse_number (f :: fs)) as [shown dfs]. unfold snd in Hfr. simpl.
  assert (dfs = []) as ->; [|reflexivity]. rewrite Hfr. clear Hfr Hne.
  generalize dependent (f :: fs). intros l Hall.
  induction Hall as [|f' fs' [e He] _ IH]; [done|]. csimpl.
  unfold read_csv at 1. rewrite He. simpl. apply IH.
Qed.

Lemma load_files_read files f t :
  f ∈ files → parsed f = Ok t → (load_files parse_number files).2 ≠ [].
Proof.
  intros Hin Ht. induction files as [|g gs IH]; [by apply elem_of_nil in Hin|].
  simpl. destruct (load_files parse_number gs) as [shown dfs]. simpl in IH.
  unfold read_csv at 1. apply elem_of_cons in Hin as [Heq|Hin].
  - subst g. by rewrite Ht.
  - destruct (parsed g); simpl; [done|]. by apply IH.
Qed.

Lemma load_files_rejected files f e :
  f ∈ files → parsed f = Raise e →
  ErrorReading (name f) e ∈ (load_files parse_number files).1.
Proof.
  intros Hin He. induction files as [|g gs IH]; [by apply elem_of_nil in Hin|].
  simpl. destruct (load_files parse_number gs) as [shown dfs]. simpl in IH.
  unfold read_csv at 1. apply elem_of_cons in Hin as [Heq|Hin].
  - subst g. rewrite He. simpl. by left.
  - destruct (parsed g); simpl; [|right]; by apply IH.
Qed.

(** When some file is read, the run continues with the concatenation of the
    frames read, and each rejected file has its error shown. *)
Lemma ingestion_some_read files f t :
  f ∈ files → parsed f = Ok t →
  ∃ shown df,
    ingestion parse_number files = (shown, Continue df) ∧
    pd_concat (load_files parse_number files).2 = Ok df ∧
    ∀ f' e, f' ∈ files → parsed f' = Raise e → ErrorReading (name f') e ∈ shown.
Proof.
  intros Hf Ht. unfold ingestion.
  pose proof (load_files_read files f t Hf Ht) as Hdfs.
  pose proof (λ f' e, load_files_rejected files f' e) as Hshown.
  destruct files as [|f0 fs]; [by apply elem_of_nil in Hf|].
  destruct (load_files parse_number (f0 :: fs)) as [shown dfs].
  unfold fst, snd in *.
  destruct dfs as [|d ds]; [done|]. eexists _, _. repeat split. exact Hshown.
Qed.

(** C5, where the code departs from it: when files were uploaded and
    the reader rejects every one of them, the error of each file is shown,
    then [pd.concat] of the empty list raises a ValueError that nothing
    catches.  The run ends on that exception, and the prompt to upload
    reports is not among what was shown. *)
Theorem ingestion_without_readable_file files :
  files ≠ [] → Forall (λ f, ∃ e, parsed f = Raise e) files →
  (ingestion parse_number files).2 = Uncaught (ValueError "No objects to concatenate") ∧
  (UploadPrompt ∉ (ingestion parse_number files).1) ∧
  ∀ f e, f ∈ files → parsed f = Raise e →
         ErrorReading (name f) e ∈ (ingestion parse_number files).1.
Proof.
  intros Hne Hall. split; [by apply ingestion_none_read|]. split.
  - by rewrite ingestion_prompt_iff.
  - intros f e Hf He. pose proof (load_files_rejected files f e Hf He) as Hshown.
    unfold ingestion. destruct files as [|f0 fs]; [done|].
    by destruct (load_files parse_number (f0 :: fs)).
Qed.

End Ingestion_claims.

Lemma ingestion_without_readable_file_witness :
  [report_bad] ≠ [] ∧
  Forall (λ f, ∃ e, parsed f = Raise e) [report_bad] ∧
  ingestion parse_integer [report_bad]
  = ([ErrorReading "bad.csv" (OtherError "No columns to parse from file")],
     Uncaught (ValueError "No objects to concatenate")) ∧
  (ingestion parse_integer [report_bad]).2
  = Uncaught (ValueError "No objects to concatenate") ∧
  (UploadPrompt ∉ (ingestion parse_integer [report_bad]).1) ∧
  ∀ f e, f ∈ [report_bad] → parsed f = Raise e →
         ErrorReading (name f) e ∈ (ingestion parse_integer [report_bad]).1.
Proof.
  assert ([report_bad] ≠ []) as Hne by done.
  assert (Forall (λ f, ∃ e, parsed f = Raise e) [report_bad]) as Hall
    by (repeat constructor; by eexists).
  split; [exact Hne|]. split; [exact Hall|]. split; [reflexivity|].
  exact (ingestion_without_readable_file parse_integer [report_bad] Hne Hall).
Defined.

(** ** Grouping *)

Lemma f64_eqb_sym x y : F64.eqb x y = F64.eqb y x.
Proof.
  unfold F64.eqb, SFeqb.
  destruct x as [[]|[]| |[] mx ex], y as [[]|[]| |[] my ey]; simpl; try done;
    change (Pos.compare_cont Eq) with Pos.compare;
    rewrite (Z.compare_antisym ex ey), (Pos.compare_antisym mx my);
    by destruct (ex ?= ey)%Z, (mx ?= my)%positive.
Qed.

Lemma f64_eqb_trans x y z :
  F64.eqb x y = true → F64.eqb y z = true → F64.eqb x z = true.
Proof.
  unfold F64.eqb, SFeqb.
  destruct x as [[]|[]| |[] mx ex], y as [[]|[]| |[] my ey],
           z as [[]|[]| |[] mz ez]; simpl; try done;
    change (Pos.compare_cont Eq) with Pos.compare;
    intros H1 H2; float_cases; try done; lia.
Qed.

Lemma cell_eqb_refl c : isna c = false → cell_eqb c c = true.
Proof.
  destruct c as [x|s]; simpl; [apply f64_eqb_refl|]. intros _. by apply bool_decide_eq_true.
Qed.

Lemma cell_eqb_sym a b : cell_eqb a b = cell_eqb b a.
Proof.
  destruct a as [x|s], b as [y|t]; simpl; try done; [apply f64_eqb_sym|].
  apply bool_decide_ext. naive_solver.
Qed.

Lemma cell_eqb_trans a b c :
  cell_eqb a b = true → cell_eqb b c = true → cell_eqb a c = true.
Proof.
  destruct a as [x|s], b as [y|t], c as [z|u]; simpl; try done;
    [apply f64_eqb_trans|].
  rewrite !bool_decide_eq_true. congruence.
Qed.

(** A missing value equals nothing, itself included. *)
Lemma cell_eqb_isna a b : isna a = true → cell_eqb a b = false ∧ cell_eqb b a = false.
Proof.
  destruct a as [[]|s], b as [[| | |]|t]; simpl; done.
Qed.

Lemma elem_of_unique cs c : c ∈ unique cs → c ∈ cs.
Proof.
  revert c. induction cs as [|d cs IH]; intros c; simpl; [done|].
  rewrite !elem_of_cons, list_elem_of_filter. naive_solver.
Qed.

(** Each value that is not missing has its representative among the
    distinct values. *)
Lemma unique_represents cs c :
  c ∈ cs → isna c = false → ∃ d, d ∈ unique cs ∧ cell_eqb d c = true.
Proof.
  intros Hin Hna. induction cs as [|e cs IH]; [by apply elem_of_nil in Hin|].
  simpl. apply elem_of_cons in Hin as [->|Hin].
  - exists e. split; [by left|]. by apply cell_eqb_refl.
  - destruct (IH Hin) as (d & Hd & Hdc).
    destruct (cell_eqb e d) eqn:Hed.
    + exists e. split; [by left|]. by eapply cell_eqb_trans.
    + exists d. split; [|done]. right. apply list_elem_of_filter. split; [|done].
      by rewrite Hed.
Qed.

Lemma unique_NoDup cs : Forall (λ c, isna c = false) cs → NoDup (unique cs).
Proof.
  induction 1 as [|c cs Hc _ IH]; simpl; [constructor|].
  apply NoDup_cons. split; [|by apply NoDup_filter].
  rewrite list_elem_of_filter. intros [Hneq _]. by rewrite cell_eqb_refl in Hneq.
Qed.

Lemma elem_of_group_keys i rows k :
  k ∈ group_keys i rows → isna k = false ∧ ∃ r, r ∈ rows ∧ cell_at i r = k.
Proof.
  unfold group_keys. rewrite merge_sort_Permutation.
  intros Hk%elem_of_unique. apply list_elem_of_filter in Hk as [Hna Hk].
  apply list_elem_of_fmap in Hk as (r & -> & Hr).
  split; [unfold notna in Hna; by destruct (isna _)|by exists r].
Qed.

Lemma group_keys_represent i rows r :
  r ∈ rows → isna (cell_at i r) = false →
  ∃ k, k ∈ group_keys i rows ∧ r ∈ group_rows i k rows.
Proof.
  intros Hr Hna.
  destruct (unique_represents (filter notna (cell_at i <$> rows)) (cell_at i r))
    as (k & Hk & Heq); [|done|].
  { apply list_elem_of_filter. split; [unfold notna; by rewrite Hna|].
    apply list_elem_of_fmap. by exists r. }
  exists k. split.
  - unfold group_keys. by rewrite merge_sort_Permutation.
  - apply list_elem_of_filter. split; [|done]. by rewrite cell_eqb_sym, Heq.
Qed.

Lemma group_keys_NoDup i rows : NoDup (group_keys i rows).
Proof.
  unfold group_keys. rewrite merge_sort_Permutation. apply unique_NoDup.
  apply Forall_forall. intros c [Hna _]%list_elem_of_filter.
  unfold notna in Hna. by destruct (isna c).
Qed.

(** A row with a missing key is in no group. *)
Lemma group_rows_isna i k rows r :
  isna (cell_at i r) = true → r ∉ group_rows i k rows.
Proof.
  intros Hna [Heq _]%list_elem_of_filter.
  destruct (cell_eqb_isna (cell_at i r) k Hna) as [H _]. by rewrite H in Heq.
Qed.

(** ** Keyword Summary *)

Lemma sort_values_elem_of {A} (before : A → A → Prop) l l' x :
  sort_values before l l' → x ∈ l' ↔ x ∈ l.
Proof. intros [Hp _]. by rewrite Hp. Qed.

Lemma summary_groups_Ok df groups :
  summary_groups df = Ok groups →
  ∃ kw st im cl co,
    positions "keyword" df = [kw] ∧ positions "search_term" df = [st] ∧
    positions "impressions" df = [im] ∧ positions "clicks" df = [cl] ∧
    positions "cost" df = [co] ∧
    groups = (λ k, let g := group_rows kw k (data df) in
                   {| keyword := k;
                      total_search_terms := agg_nunique (cell_at st <$> g);
                      total_impressions := agg_sum (cell_at im <$> g);
                      total_clicks := agg_sum (cell_at cl <$> g);
                      total_cost := agg_sum (cell_at co <$> g) |})
             <$> group_keys kw (data df).
Proof.
  unfold summary_groups.
  destruct (column_index _ "keyword" df) as [kw|] eqn:Hkw; [|done]. simpl.
  destruct (column_index _ "search_term" df) as [st|] eqn:Hst; [|done]. simpl.
  destruct (column_index _ "impressions" df) as [im|] eqn:Him; [|done]. simpl.
  destruct (column_index _ "clicks" df) as [cl|] eqn:Hcl; [|done]. simpl.
  destruct (column_index _ "cost" df) as [co|] eqn:Hco; [|done]. simpl.
  intros [= <-]. exists kw, st, im, cl, co.
  repeat split; by eapply column_index_Ok.
Qed.

(** The rows of the table are the groups with their two rates, whatever the
    order the sort leaves them in. *)
Lemma summary_rows df out groups :
  summary df out → summary_groups df = Ok groups →
  ∀ row, row ∈ out ↔ ∃ t, t ∈ groups ∧ row = with_rates t.
Proof.
  intros (groups' & sorted & Hg & Hsort & ->) Hg'. rewrite Hg in Hg'. simplify_eq.
  intros row. rewrite list_elem_of_fmap. split.
  - intros (t & -> & Ht). exists t. split; [|done].
    by apply (sort_values_elem_of _ _ _ t Hsort).
  - intros (t & Ht & ->). exists t. split; [done|].
    by apply (sort_values_elem_of _ _ _ t Hsort).
Qed.

#[global] Instance by_search_terms_desc_total : Total by_search_terms_desc.
Proof. intros a b. unfold by_search_terms_desc. lia. Qed.

#[global] Instance by_search_terms_desc_trans : Transitive by_search_terms_desc.
Proof. intros a b c. unfold by_search_terms_desc. lia. Qed.

(** The script shows a Keyword Summary whenever the five columns are there. *)
Lemma summary_exists df groups :
  summary_groups df = Ok groups → ∃ out, summary df out.
Proof.
  intros Hg. exists (with_rates <$> stable_sort by_search_terms_desc groups).
  exists groups, (stable_sort by_search_terms_desc groups).
  split; [done|]. split; [|done]. apply (sort_values_stable by_search_terms_desc).
Qed.

Lemma summary_groups_b :
  summary_groups filtered_b = Ok (totals <$> summary_b).
Proof. vm_compute. reflexivity. Qed.

Lemma summary_b_shown : summary filtered_b summary_b.
Proof.
  exists (totals <$> summary_b), (totals <$> summary_b).
  split; [exact summary_groups_b|]. split.
  - split; [done|]. apply (bool_decide_unpack _). vm_compute. exact I.
  - vm_compute. reflexivity.
Qed.

(** C1, where the code departs from it: a keyword group whose clicks and
    cost both sum to zero has the CPC 0/0 = NaN, not 0, in every Keyword
    Summary the script may show: the replacement of line 100 only catches
    +inf.  The keyword boots of [filtered_b] is such a group. *)
Theorem summary_cpc_nan_without_clicks df out row :
  summary df out → row ∈ out →
  F64.eqb (total_clicks (totals row)) F64.zero = true →
  F64.eqb (total_cost (totals row)) F64.zero = true →
  CPC row = F64.nan.
Proof.
  intros (groups & sorted & _ & _ & ->) (t & -> & _)%list_elem_of_fmap. simpl.
  destruct (total_clicks t) as [[]|[]| |[] ? ?]; try done;
    destruct (total_cost t) as [[]|[]| |[] ? ?]; done.
Qed.

Lemma summary_cpc_nan_without_clicks_witness :
  summary filtered_b summary_b ∧ boots_row ∈ summary_b ∧
  F64.eqb (total_clicks (totals boots_row)) F64.zero = true ∧
  F64.eqb (total_cost (totals boots_row)) F64.zero = true ∧
  CPC boots_row = F64.nan.
Proof.
  assert (boots_row ∈ summary_b) as Hin by (unfold summary_b; set_solver).
  split; [exact summary_b_shown|]. split; [exact Hin|].
  split; [reflexivity|]. split; [reflexivity|].
  exact (summary_cpc_nan_without_clicks filtered_b summary_b boots_row
           summary_b_shown Hin eq_refl eq_refl).
Defined.

(** C2, where the code departs from it: a keyword group with clicks
    (a positive sum) and impressions that sum to zero has the CTR +inf, not
    0 and not in [0, ∞), in every Keyword Summary the script may show: the
    [fillna] of line 99 only catches NaN.  The keyword socks of
    [filtered_b] is such a group. *)
Theorem summary_ctr_inf_without_impressions df out row :
  summary df out → row ∈ out →
  F64.eqb (total_impressions (totals row)) F64.zero = true →
  F64.ltb F64.zero (total_clicks (totals row)) = true →
  F64.is_nan (F64.div (total_clicks (totals row)) (total_impressions (totals row))) = false ∧
  (F64.div (total_clicks (totals row)) (total_impressions (totals row)) = F64.inf ∨
   F64.div (total_clicks (totals row)) (total_impressions (totals row)) = S754_infinity true) ∧
  CTR row = F64.div (total_clicks (totals row)) (total_impressions (totals row)) ∧
  F64.in_zero_inf (CTR row) = false.
Proof.
  intros (groups & sorted & _ & _ & ->) (t & -> & _)%list_elem_of_fmap. simpl.
  destruct (total_impressions t) as [[]|[]| |[] ? ?]; try done;
    destruct (total_clicks t) as [[]|[]| |[] ? ?]; try done; intros _ _;
    repeat split; try done; by (left + right).
Qed.

Lemma summary_ctr_inf_without_impressions_witness :
  summary filtered_b summary_b ∧ socks_row ∈ summary_b ∧
  F64.eqb (total_impressions (totals socks_row)) F64.zero = true ∧
  F64.ltb F64.zero (total_clicks (totals socks_row)) = true ∧
  CTR socks_row = F64.inf ∧
  F64.in_zero_inf (CTR socks_row) = false.
Proof.
  assert (socks_row ∈ summary_b) as Hin by (unfold summary_b; set_solver).
  split; [exact summary_b_shown|]. split; [exact Hin|].
  split; [reflexivity|]. split; [reflexivity|].
  split; [reflexivity|].
  exact (proj2 (proj2 (proj2 (summary_ctr_inf_without_impressions filtered_b summary_b
           socks_row summary_b_shown Hin eq_refl eq_refl)))).
Defined.

(** ** Coverage Analyzer *)

Section Coverage_claims.

Variable str_lower : string → string.
Variable str_strip : string → string.
Variable str_of_float : float64 → string.

Local Abbreviation analyze := (coverage str_lower str_strip str_of_float).
Local Abbreviation clean_keyword := (clean_kw str_lower str_strip str_of_float).
Local Abbreviation clean_term := (search_term_clean str_lower str_strip).

Lemma str_accessor_Ok cs cs' : str_accessor cs = Ok cs' → cs' = cs.
Proof. unfold str_accessor. case_match; [done|]. by intros [= <-]. Qed.

Lemma coverage_Ok df cov :
  analyze df = Ok cov →
  ∃ st kw,
    positions "search_term" df = [st] ∧ positions "keyword" df = [kw] ∧
    all_keywords cov
      = list_to_set ((λ r, Some (clean_keyword (cell_at kw r))) <$> data df) ∖ {[ Some ""%string ]} ∧
    all_search_terms cov
      = list_to_set (clean_term <$> (cell_at st <$> data df)) ∧
    uncovered_terms cov = all_search_terms cov ∖ all_keywords cov.
Proof.
  unfold coverage.
  destruct (column_index _ "search_term" df) as [st|] eqn:Hst; [|done]. simpl.
  destruct (str_accessor _) as [terms|] eqn:Hterms; [|done]. simpl.
  destruct (column_index _ "keyword" df) as [kw|] eqn:Hkw; [|done]. simpl.
  intros [= <-]. simpl. apply str_accessor_Ok in Hterms as ->.
  exists st, kw. repeat split; by eapply column_index_Ok.
Qed.

(** C6. Whenever the Coverage Analyzer computes its sets, they obey the
    partition law: no uncovered term is a keyword, and the uncovered terms
    together with the terms that are keywords make up all the terms; here
    the keyword set holds the cleaned keywords that are not empty, the term
    set the cleaned search terms, and the uncovered set is their
    difference. *)
Theorem coverage_partition df cov :
  analyze df = Ok cov →
  uncovered_terms cov ∩ all_keywords cov = ∅ ∧
  uncovered_terms cov ∪ (all_search_terms cov ∩ all_keywords cov) = all_search_terms cov ∧
  uncovered_terms cov = all_search_terms cov ∖ all_keywords cov ∧
  ∃ st kw,
    positions "search_term" df = [st] ∧ positions "keyword" df = [kw] ∧
    (∀ k, k ∈ all_keywords cov ↔
          ∃ r, r ∈ data df ∧ k = Some (clean_keyword (cell_at kw r)) ∧
               clean_keyword (cell_at kw r) ≠ ""%string) ∧
    (∀ t, t ∈ all_search_terms cov ↔
          ∃ r, r ∈ data df ∧ t = clean_term (cell_at st r)).
Proof.
  intros (st & kw & Hst & Hkw & HK & HT & HU)%coverage_Ok.
  split; [rewrite HU; set_solver|]. split.
  { rewrite HU. apply set_eq. intros x. destruct (decide (x ∈ all_keywords cov)); set_solver. }
  split; [done|]. exists st, kw. split; [done|]. split; [done|]. split.
  - intros k. rewrite HK, elem_of_difference, elem_of_list_to_set, list_elem_of_fmap.
    rewrite elem_of_singleton. split.
    + intros [(r & -> & Hr) Hne]. exists r. repeat split; try done. congruence.
    + intros (r & Hr & -> & Hne). split; [by exists r|]. congruence.
  - intros t. rewrite HT, elem_of_list_to_set, <-list_fmap_compose, list_elem_of_fmap.
    naive_solver.
Qed.

End Coverage_claims.

Lemma coverage_partition_witness :
  ∃ cov,
    coverage lower strip no_float_text filtered_b = Ok cov ∧
    uncovered_terms cov ∩ all_keywords cov = ∅ ∧
    uncovered_terms cov ∪ (all_search_terms cov ∩ all_keywords cov) = all_search_terms cov ∧
    uncovered_terms cov = all_search_terms cov ∖ all_keywords cov ∧
    ∃ st kw,
      positions "search_term" filtered_b = [st] ∧ positions "keyword" filtered_b = [kw] ∧
      (∀ k, k ∈ all_keywords cov ↔
            ∃ r, r ∈ data filtered_b ∧
                 k = Some (clean_kw lower strip no_float_text (cell_at kw r)) ∧
                 clean_kw lower strip no_float_text (cell_at kw r) ≠ ""%string) ∧
      (∀ t, t ∈ all_search_terms cov ↔
            ∃ r, r ∈ data filtered_b ∧ t = search_term_clean lower strip (cell_at st r)).
Proof.
  destruct (coverage lower strip no_float_text filtered_b) as [cov|e] eqn:Hcov.
  - exists cov. split; [done|].
    exact (coverage_partition lower strip no_float_text filtered_b cov Hcov).
  - exfalso. vm_compute in Hcov. discriminate Hcov.
Defined.

(** ** Insight Requester *)

Section Insight_claims.

Variable secrets : string → result string.
Variable post : Request → result (result json).

Local Abbreviation handler := (generate_insights secrets post).

(** A document that can be indexed by a key contains the key. *)
Lemma getitem_py_in key v x : getitem key v = Ok x → py_in key v = Ok true.
Proof.
  destruct v as [| | | | |members]; simpl; try done.
  destruct (list_find _ members) as [[i [k y]]|] eqn:Hf; [|done]. intros _.
  apply list_find_Some in Hf as (Hi & Hk & _). simpl in Hk. subst k.
  f_equal. apply bool_decide_eq_true. apply list_elem_of_fmap.
  exists (key, y). split; [done|]. by eapply list_elem_of_lookup_2.
Qed.

(** C7. The handler always ends by showing something, and what it shows is
    settled by the response.  (1) When the decoded response has a choices
    list whose first element has a message with a content, that content is
    shown as the success (the text itself when it is a text).  (2) When
    [requests.post] raises, (3) when the body is not JSON, the exception is
    shown as the error.  (4) When the decoded response is an object without
    a choices key, the raw response is shown as the error.  (5) In every
    run the handler shows the success content, the raw response, or the
    exception that was raised: no exception escapes it. *)
Theorem generate_insights_spec terms campaign_sel :
  (∀ api_key result choices first message content,
     secrets secret_name = Ok api_key →
     post (build_request api_key terms campaign_sel) = Ok (Ok result) →
     getitem "choices" result = Ok choices →
     getitem_0 choices = Ok first →
     getitem "message" first = Ok message →
     getitem "content" message = Ok content →
     handler terms campaign_sel = Success content) ∧
  (∀ api_key e,
     secrets secret_name = Ok api_key →
     post (build_request api_key terms campaign_sel) = Raise e →
     handler terms campaign_sel = Failure (RequestFailed e)) ∧
  (∀ api_key e,
     secrets secret_name = Ok api_key →
     post (build_request api_key terms campaign_sel) = Ok (Raise e) →
     handler terms campaign_sel = Failure (RequestFailed e)) ∧
  (∀ api_key members,
     secrets secret_name = Ok api_key →
     post (build_request api_key terms campaign_sel) = Ok (Ok (JObject members)) →
     "choices"%string ∉ members.*1 →
     handler terms campaign_sel = Failure (ResponseError (JObject members))) ∧
  ((∃ api_key result choices first message content,
      secrets secret_name = Ok api_key ∧
      post (build_request api_key terms campaign_sel) = Ok (Ok result) ∧
      getitem "choices" result = Ok choices ∧ getitem_0 choices = Ok first ∧
      getitem "message" first = Ok message ∧ getitem "content" message = Ok content ∧
      handler terms campaign_sel = Success content) ∨
   (∃ api_key result,
      secrets secret_name = Ok api_key ∧
      post (build_request api_key terms campaign_sel) = Ok (Ok result) ∧
      py_in "choices" result = Ok false ∧
      handler terms campaign_sel = Failure (ResponseError result)) ∨
   (∃ e, handler terms campaign_sel = Failure (RequestFailed e))).
Proof.
  unfold generate_insights, request_insights.
  repeat split.
  - intros api_key result choices first message content Hs Hp Hc Hf Hm Hcont.
    rewrite Hs. simpl. rewrite Hp. simpl.
    rewrite (getitem_py_in _ _ _ Hc). simpl.
    rewrite Hc. simpl. rewrite Hf. simpl. rewrite Hm. simpl. by rewrite Hcont.
  - intros api_key e Hs Hp. rewrite Hs. simpl. by rewrite Hp.
  - intros api_key e Hs Hp. rewrite Hs. simpl. by rewrite Hp.
  - intros api_key members Hs Hp Hnot. rewrite Hs. simpl. rewrite Hp. simpl.
    by rewrite bool_decide_eq_false_2.
  - destruct (secrets secret_name) as [api_key|e] eqn:Hs; simpl; [|right; right; by exists e].
    destruct (post _) as [[result|e]|e] eqn:Hp; simpl;
      [|right; right; by exists e|right; right; by exists e].
    destruct (py_in "choices" result) as [[]|e] eqn:Hin; simpl;
      [|right; left; by exists api_key, result|right; right; by exists e].
    destruct (getitem "choices" result) as [choices|e] eqn:Hc; simpl;
      [|right; right; by exists e].
    destruct (getitem_0 choices) as [first|e] eqn:Hf; simpl;
      [|right; right; by exists e].
    destruct (getitem "message" first) as [message|e] eqn:Hm; simpl;
      [|right; right; by exists e].
    destruct (getitem "content" message) as [content|e] eqn:Hcont; simpl;
      [|right; right; by exists e].
    left. by exists api_key, result, choices, first, message, content.
Qed.

End Insight_claims.

Lemma generate_insights_spec_witness :
  secrets_ok secret_name = Ok "key"%string ∧
  post_ok (build_request "key" [Str "cheap boots"] "All") = Ok (Ok reply_ok) ∧
  generate_insights secrets_ok post_ok [Str "cheap boots"] "All"
  = Success (JString "Bid on boots.").
Proof.
  split; [reflexivity|]. split; [reflexivity|].
  refine (proj1 (generate_insights_spec secrets_ok post_ok [Str "cheap boots"] "All")
            "key"%string reply_ok _ _ _ _ _ _ _ _ _ _); reflexivity.
Defined.

(** ** Top Terms *)

#[global] Instance by_clicks_desc_total : Total by_clicks_desc.
Proof. intros a b. apply (total desc). Qed.

#[global] Instance by_clicks_desc_trans : Transitive by_clicks_desc.
Proof. intros a b c. apply (transitivity (R := desc)). Qed.

Lemma top_terms_groups_Ok df groups :
  top_terms_groups df = Ok groups →
  ∃ st cl im,
    positions "search_term" df = [st] ∧ positions "clicks" df = [cl] ∧
    positions "impressions" df = [im] ∧
    groups = (λ k, let g := group_rows st k (data df) in
                   {| term := k;
                      clicks := agg_sum (cell_at cl <$> g);
                      impressions := agg_sum (cell_at im <$> g) |})
             <$> group_keys st (data df).
Proof.
  unfold top_terms_groups.
  destruct (column_index _ "search_term" df) as [st|] eqn:Hst; [|done]. simpl.
  destruct (column_index _ "clicks" df) as [cl|] eqn:Hcl; [|done]. simpl.
  destruct (column_index _ "impressions" df) as [im|] eqn:Him; [|done]. simpl.
  intros [= <-]. exists st, cl, im. repeat split; by eapply column_index_Ok.
Qed.

(** One group per distinct search term, holding the sums over its rows. *)
Lemma top_terms_groups_spec df groups :
  top_terms_groups df = Ok groups →
  ∃ st cl im,
    positions "search_term" df = [st] ∧ positions "clicks" df = [cl] ∧
    positions "impressions" df = [im] ∧
    NoDup (term <$> groups) ∧
    (∀ r, r ∈ data df → isna (cell_at st r) = false →
          ∃ t, t ∈ groups ∧ r ∈ group_rows st (term t) (data df)) ∧
    (∀ t, t ∈ groups →
          isna (term t) = false ∧
          (∃ r, r ∈ data df ∧ cell_at st r = term t) ∧
          clicks t = agg_sum (cell_at cl <$> group_rows st (term t) (data df)) ∧
          impressions t = agg_sum (cell_at im <$> group_rows st (term t) (data df))).
Proof.
  intros (st & cl & im & Hst & Hcl & Him & ->)%top_terms_groups_Ok.
  exists st, cl, im. split; [done|]. split; [done|]. split; [done|]. split; [|split].
  - rewrite <-list_fmap_compose. simpl.
    rewrite (list_fmap_ext _ id (group_keys st (data df))) by done.
    rewrite list_fmap_id. apply group_keys_NoDup.
  - intros r Hr Hna. destruct (group_keys_represent st _ r Hr Hna) as (k & Hk & Hrk).
    eexists. split; [apply list_elem_of_fmap; by exists k|done].
  - intros t (k & -> & Hk)%list_elem_of_fmap. simpl.
    apply elem_of_group_keys in Hk as [Hna Hr]. done.
Qed.

Lemma take_sorted_cut {A} (R : relation A) sorted n t u :
  StronglySorted R sorted → t ∈ take n sorted → u ∈ sorted → u ∉ take n sorted →
  R t u.
Proof.
  intros Hs Ht Hu Hnot. rewrite <-(take_drop n sorted) in Hs, Hu.
  apply elem_of_app in Hu as [Hu|Hu]; [done|].
  by eapply StronglySorted_app_1_elem_of.
Qed.

Lemma top_terms_exists df groups :
  top_terms_groups df = Ok groups → ∃ out, top_terms df out.
Proof.
  intros Hg. exists (take 15 (stable_sort by_clicks_desc groups)).
  exists groups, (stable_sort by_clicks_desc groups).
  split; [done|]. split; [|done]. apply (sort_values_stable by_clicks_desc).
Qed.

(** C8, as amended. The Top Terms table has one candidate row per distinct
    search term with the sums of clicks and of impressions over the rows of
    that term; the table is the first 15 rows (all, when there are fewer) of
    a rearrangement of the candidates in descending order of clicks (a NaN
    sum last): it lists no candidate twice, and no candidate left out has
    more clicks than one that is listed.  The order among candidates with
    equal clicks is not fixed. *)
Theorem top_terms_spec df out :
  top_terms df out →
  ∃ st cl im groups,
    positions "search_term" df = [st] ∧ positions "clicks" df = [cl] ∧
    positions "impressions" df = [im] ∧
    top_terms_groups df = Ok groups ∧
    NoDup (term <$> groups) ∧
    (∀ r, r ∈ data df → isna (cell_at st r) = false →
          ∃ t, t ∈ groups ∧ r ∈ group_rows st (term t) (data df)) ∧
    (∀ t, t ∈ groups →
          isna (term t) = false ∧
          (∃ r, r ∈ data df ∧ cell_at st r = term t) ∧
          clicks t = agg_sum (cell_at cl <$> group_rows st (term t) (data df)) ∧
          impressions t = agg_sum (cell_at im <$> group_rows st (term t) (data df))) ∧
    StronglySorted by_clicks_desc out ∧
    length out = 15 `min` length groups ∧
    (∀ t, t ∈ out → t ∈ groups) ∧
    (∀ t u, t ∈ out → u ∈ groups → u ∉ out → by_clicks_desc t u) ∧
    (∃ sorted, sorted ≡ₚ groups ∧ StronglySorted by_clicks_desc sorted ∧
               out = take 15 sorted) ∧
    (∃ rest, out ++ rest ≡ₚ groups) ∧
    NoDup (term <$> out).
Proof.
  intros (groups & sorted & Hg & [Hperm Hsorted] & ->).
  destruct (top_terms_groups_spec df groups Hg)
    as (st & cl & im & Hst & Hcl & Him & Hnd & Hrows & Hsums).
  exists st, cl, im, groups.
  do 7 (split; [done|]). split; [|split; [|split; [|split; [|split; [|split]]]]].
  - apply (StronglySorted_app_1_l _ _ (drop 15 sorted)). by rewrite take_drop.
  - by rewrite length_take, Hperm.
  - intros t Ht%elem_of_take. destruct Ht as (i & Hi & _).
    rewrite <-Hperm. by eapply list_elem_of_lookup_2.
  - intros t u Ht Hu Hnot. eapply take_sorted_cut; try done. by rewrite Hperm.
  - by exists sorted.
  - exists (drop 15 sorted). by rewrite take_drop.
  - rewrite <-Hperm, <-(take_drop 15 sorted), fmap_app in Hnd.
    by apply NoDup_app in Hnd as [Hnd _].
Qed.

(** The report of eighteen terms, from the upload to the candidates. *)
Lemma ingestion_tied :
  ingestion parse_integer [tied_report] = ([], Continue tied_dataset).
Proof. vm_compute. reflexivity. Qed.

Lemma normalization_tied : normalization parse_integer tied_dataset = Ok tied.
Proof. vm_compute. reflexivity. Qed.

Lemma top_terms_groups_tied : top_terms_groups tied = Ok tied_groups.
Proof. vm_compute. reflexivity. Qed.

(** Every descending arrangement of the candidates gives a table. *)
Lemma top_terms_tied_order order :
  order ≡ₚ seq 1 18 → StronglySorted by_clicks_desc (tied_group <$> order) →
  top_terms tied (take 15 (tied_group <$> order)).
Proof.
  intros Hperm Hsorted. exists tied_groups, (tied_group <$> order).
  split; [exact top_terms_groups_tied|]. split; [|done].
  split; [|done]. unfold tied_groups. by rewrite Hperm.
Qed.

Lemma top_terms_tied_quicksort : top_terms tied (take 15 (tied_group <$> quicksort_order)).
Proof.
  apply top_terms_tied_order; apply (bool_decide_unpack _); vm_compute; exact I.
Qed.

Lemma top_terms_tied_network : top_terms tied (take 15 (tied_group <$> network_order)).
Proof.
  apply top_terms_tied_order; apply (bool_decide_unpack _); vm_compute; exact I.
Qed.

Lemma top_terms_spec_witness :
  top_terms tied (take 15 (tied_group <$> quicksort_order)) ∧
  ∃ st cl im groups,
    positions "search_term" tied = [st] ∧ positions "clicks" tied = [cl] ∧
    positions "impressions" tied = [im] ∧
    top_terms_groups tied = Ok groups ∧
    NoDup (term <$> groups) ∧
    (∀ r, r ∈ data tied → isna (cell_at st r) = false →
          ∃ t, t ∈ groups ∧ r ∈ group_rows st (term t) (data tied)) ∧
    (∀ t, t ∈ groups →
          isna (term t) = false ∧
          (∃ r, r ∈ data tied ∧ cell_at st r = term t) ∧
          clicks t = agg_sum (cell_at cl <$> group_rows st (term t) (data tied)) ∧
          impressions t = agg_sum (cell_at im <$> group_rows st (term t) (data tied))) ∧
    StronglySorted by_clicks_desc (take 15 (tied_group <$> quicksort_order)) ∧
    length (take 15 (tied_group <$> quicksort_order)) = 15 `min` length groups ∧
    (∀ t, t ∈ take 15 (tied_group <$> quicksort_order) → t ∈ groups) ∧
    (∀ t u, t ∈ take 15 (tied_group <$> quicksort_order) → u ∈ groups →
            u ∉ take 15 (tied_group <$> quicksort_order) → by_clicks_desc t u) ∧
    (∃ sorted, sorted ≡ₚ groups ∧ StronglySorted by_clicks_desc sorted ∧
               take 15 (tied_group <$> quicksort_order) = take 15 sorted) ∧
    (∃ rest, take 15 (tied_group <$> quicksort_order) ++ rest ≡ₚ groups) ∧
    NoDup (term <$> take 15 (tied_group <$> quicksort_order)).
Proof.
  split; [exact top_terms_tied_quicksort|].
  exact (top_terms_spec tied _ top_terms_tied_quicksort).
Defined.

(** C8, the claim as stated fails: a report lists eighteen search terms,
    the odd ones with two clicks and the even ones with one.  Kept in group
    order the table would show the nine odd terms and then t02 to t12.  The
    sort of line 133 runs with the default kind, quicksort, which does not
    keep equal keys in order: the table numpy's quicksort gives shows the
    even terms t16 and t14 and leaves out t04 and t06, which stand before
    them in group order and have as many clicks; a merging network gives
    another table again, which shows t14 and leaves out t12.  Neither is
    the table in group order. *)
Lemma top_terms_ties_not_stable :
  ingestion parse_integer [tied_report] = ([], Continue tied_dataset) ∧
  normalization parse_integer tied_dataset = Ok tied ∧
  top_terms_stable tied = Ok (take 15 (tied_group <$> stable_order)) ∧
  top_terms tied (take 15 (tied_group <$> quicksort_order)) ∧
  top_terms tied (take 15 (tied_group <$> network_order)) ∧
  take 15 (tied_group <$> quicksort_order) ≠ take 15 (tied_group <$> stable_order) ∧
  take 15 (tied_group <$> network_order) ≠ take 15 (tied_group <$> stable_order) ∧
  clicks (tied_group 4) = clicks (tied_group 16) ∧
  tied_group 16 ∈ take 15 (tied_group <$> quicksort_order) ∧
  tied_group 4 ∉ take 15 (tied_group <$> quicksort_order) ∧
  tied_group 4 ∈ take 15 (tied_group <$> stable_order) ∧
  tied_group 16 ∉ take 15 (tied_group <$> stable_order).
Proof.
  split; [exact ingestion_tied|]. split; [exact normalization_tied|].
  split; [by vm_compute|].
  split; [exact top_terms_tied_quicksort|]. split; [exact top_terms_tied_network|].
  split; [by vm_compute|]. split; [by vm_compute|]. split; [reflexivity|].
  repeat split; apply (bool_decide_unpack _); vm_compute; exact I.
Qed.

(** ** Mapping, and the rows without keyword *)

#[global] Instance by_row_clicks_desc_total : Total by_row_clicks_desc.
Proof. intros a b. apply (total desc). Qed.

#[global] Instance by_row_clicks_desc_trans : Transitive by_row_clicks_desc.
Proof. intros a b c. apply (transitivity (R := desc)). Qed.

Lemma mapping_Ok df out :
  mapping df out →
  ∃ st kw im cl co,
    positions "search_term" df = [st] ∧ positions "keyword" df = [kw] ∧
    positions "impressions" df = [im] ∧ positions "clicks" df = [cl] ∧
    positions "cost" df = [co] ∧
    columns out = mapping_columns ∧
    data out ≡ₚ (λ r, [cell_at st r; cell_at kw r; cell_at im r; cell_at cl r;
                        cell_at co r]) <$> data df ∧
    StronglySorted by_row_clicks_desc (data out).
Proof.
  intros (ixs & Hixs & Hcols & Hperm & Hsorted).
  unfold mapping_columns in Hixs. simpl in Hixs.
  destruct (column_index _ "search_term" df) as [st|] eqn:Hst; [|done]. simpl in Hixs.
  destruct (column_index _ "keyword" df) as [kw|] eqn:Hkw; [|done]. simpl in Hixs.
  destruct (column_index _ "impressions" df) as [im|] eqn:Him; [|done]. simpl in Hixs.
  destruct (column_index _ "clicks" df) as [cl|] eqn:Hcl; [|done]. simpl in Hixs.
  destruct (column_index _ "cost" df) as [co|] eqn:Hco; [|done]. simpl in Hixs.
  injection Hixs as <-. exists st, kw, im, cl, co.
  repeat split; try done; by eapply column_index_Ok.
Qed.

Lemma mapping_exists df ixs :
  column_indexes mapping_columns df = Ok ixs → ∃ out, mapping df out.
Proof.
  intros Hixs.
  exists {| columns := mapping_columns;
            data := stable_sort by_row_clicks_desc (project ixs <$> data df) |}.
  exists ixs. split; [done|]. split; [done|].
  apply (sort_values_stable by_row_clicks_desc).
Qed.

(** C10, as amended. Take a row of the filtered frame whose keyword is
    missing.  (1) No row of the Keyword Summary has a missing keyword, and
    the row is in none of the groups the summary totals are taken over.
    (2) In Top Terms the row is in the group of its search term, so its
    clicks and impressions are in that candidate's sums (cost is not summed
    there); the candidate is listed unless 15 candidates precede it in the
    order of clicks.  (3) The Mapping lists the row's search term, keyword,
    impressions, clicks and cost. *)
Theorem missing_keyword_rows df kw r :
  positions "keyword" df = [kw] → r ∈ data df → isna (cell_at kw r) = true →
  (∀ out row, summary df out → row ∈ out →
     isna (keyword (totals row)) = false ∧
     (r ∉ group_rows kw (keyword (totals row)) (data df)) ∧
     ∃ st im cl co,
       positions "search_term" df = [st] ∧ positions "impressions" df = [im] ∧
       positions "clicks" df = [cl] ∧ positions "cost" df = [co] ∧
       let g := group_rows kw (keyword (totals row)) (data df) in
       total_search_terms (totals row) = agg_nunique (cell_at st <$> g) ∧
       total_impressions (totals row) = agg_sum (cell_at im <$> g) ∧
       total_clicks (totals row) = agg_sum (cell_at cl <$> g) ∧
       total_cost (totals row) = agg_sum (cell_at co <$> g)) ∧
  (∀ st groups,
     positions "search_term" df = [st] → isna (cell_at st r) = false →
     top_terms_groups df = Ok groups →
     ∃ cl im t,
       positions "clicks" df = [cl] ∧ positions "impressions" df = [im] ∧
       t ∈ groups ∧ r ∈ group_rows st (term t) (data df) ∧
       clicks t = agg_sum (cell_at cl <$> group_rows st (term t) (data df)) ∧
       impressions t = agg_sum (cell_at im <$> group_rows st (term t) (data df)) ∧
       ∀ out, top_terms df out →
              t ∈ out ∨ (length out = 15 ∧ ∀ u, u ∈ out → by_clicks_desc u t)) ∧
  (∀ out, mapping df out →
     ∃ st im cl co,
       positions "search_term" df = [st] ∧ positions "impressions" df = [im] ∧
       positions "clicks" df = [cl] ∧ positions "cost" df = [co] ∧
       [cell_at st r; cell_at kw r; cell_at im r; cell_at cl r; cell_at co r]
       ∈ data out).
Proof.
  intros Hkw Hr Hna. split; [|split].
  - intros out row (groups & sorted & Hg & Hsort & ->) Hrow.
    apply list_elem_of_fmap in Hrow as (t & -> & Ht).
    apply (sort_values_elem_of _ _ _ t Hsort) in Ht.
    apply summary_groups_Ok in Hg
      as (kw' & st & im & cl & co & Hkw' & Hst & Him & Hcl & Hco & ->).
    rewrite Hkw in Hkw'. simplify_eq.
    apply list_elem_of_fmap in Ht as (k & -> & Hk). simpl.
    apply elem_of_group_keys in Hk as [Hk _].
    split; [done|]. split; [by apply group_rows_isna|].
    by exists st, im, cl, co.
  - intros st groups Hst Hst_na Hg.
    destruct (top_terms_groups_spec df groups Hg)
      as (st' & cl & im & Hst' & Hcl & Him & _ & Hrows & Hsums).
    rewrite Hst in Hst'. simplify_eq.
    destruct (Hrows r Hr Hst_na) as (t & Ht & Hrt).
    destruct (Hsums t Ht) as (_ & _ & Hclicks & Himpr).
    exists cl, im, t. do 6 (split; [done|]).
    intros out (groups' & sorted & Hg' & [Hperm Hsorted] & ->).
    rewrite Hg in Hg'. simplify_eq.
    destruct (decide (t ∈ take 15 sorted)) as [Hin|Hout]; [by left|right].
    assert (t ∈ sorted) as Hts by (by rewrite Hperm).
    split.
    + rewrite <-(take_drop 15 sorted) in Hts.
      apply elem_of_app in Hts as [Hts|Hts]; [done|].
      rewrite length_take. destruct (decide (15 ≤ length sorted)); [lia|].
      rewrite drop_ge in Hts by lia. by apply elem_of_nil in Hts.
    + intros u Hu. by eapply take_sorted_cut.
  - intros out (st & kw' & im & cl & co & Hst & Hkw' & Him & Hcl & Hco & _ & Hperm & _)%mapping_Ok.
    rewrite Hkw in Hkw'. simplify_eq.
    exists st, im, cl, co. do 4 (split; [done|]).
    rewrite Hperm. apply list_elem_of_fmap. by exists r.
Qed.

Lemma missing_keyword_rows_witness :
  positions "keyword" filtered_b = [1] ∧ wool_socks ∈ data filtered_b ∧
  isna (cell_at 1 wool_socks) = true ∧
  (∀ out row, summary filtered_b out → row ∈ out →
     isna (keyword (totals row)) = false ∧
     (wool_socks ∉ group_rows 1 (keyword (totals row)) (data filtered_b)) ∧
     ∃ st im cl co,
       positions "search_term" filtered_b = [st] ∧ positions "impressions" filtered_b = [im] ∧
       positions "clicks" filtered_b = [cl] ∧ positions "cost" filtered_b = [co] ∧
       let g := group_rows 1 (keyword (totals row)) (data filtered_b) in
       total_search_terms (totals row) = agg_nunique (cell_at st <$> g) ∧
       total_impressions (totals row) = agg_sum (cell_at im <$> g) ∧
       total_clicks (totals row) = agg_sum (cell_at cl <$> g) ∧
       total_cost (totals row) = agg_sum (cell_at co <$> g)) ∧
  (∀ st groups,
     positions "search_term" filtered_b = [st] → isna (cell_at st wool_socks) = false →
     top_terms_groups filtered_b = Ok groups →
     ∃ cl im t,
       positions "clicks" filtered_b = [cl] ∧ positions "impressions" filtered_b = [im] ∧
       t ∈ groups ∧ wool_socks ∈ group_rows st (term t) (data filtered_b) ∧
       clicks t = agg_sum (cell_at cl <$> group_rows st (term t) (data filtered_b)) ∧
       impressions t = agg_sum (cell_at im <$> group_rows st (term t) (data filtered_b)) ∧
       ∀ out, top_terms filtered_b out →
              t ∈ out ∨ (length out = 15 ∧ ∀ u, u ∈ out → by_clicks_desc u t)) ∧
  (∀ out, mapping filtered_b out →
     ∃ st im cl co,
       positions "search_term" filtered_b = [st] ∧ positions "impressions" filtered_b = [im] ∧
       positions "clicks" filtered_b = [cl] ∧ positions "cost" filtered_b = [co] ∧
       [cell_at st wool_socks; cell_at 1 wool_socks; cell_at im wool_socks; cell_at cl wool_socks; cell_at co wool_socks]
       ∈ data out).
Proof.
  assert (wool_socks ∈ data filtered_b) as Hin by (unfold filtered_b; simpl; set_solver).
  split; [reflexivity|]. split; [exact Hin|]. split; [reflexivity|].
  exact (missing_keyword_rows filtered_b 1 wool_socks eq_refl Hin eq_refl).
Defined.

Lemma top_terms_groups_ranked cost :
  top_terms_groups (ranked_at cost) = Ok ranked_groups.
Proof.
  unfold top_terms_groups, ranked_at, column_index, positions. simpl.
  unfold group_keys, group_rows, without_keyword. simpl.
  vm_compute. reflexivity.
Qed.

(** C10, the claim as stated fails.  In [ranked_at 7] the row without
    keyword has the search term t16 and the fewest clicks of sixteen terms:
    its candidate is the same whatever the cost of the row (Top Terms sums
    no cost), and no Top Terms table the script may show lists t16. *)
Lemma missing_keyword_row_not_in_top_terms :
  without_keyword 7 ∈ data (ranked_at 7) ∧
  isna (cell_at 1 (without_keyword 7)) = true ∧
  top_terms_groups (ranked_at 7) = Ok ranked_groups ∧
  top_terms_groups (ranked_at 0) = Ok ranked_groups ∧
  (∃ out, top_terms (ranked_at 7) out) ∧
  ¬ (∃ out t, top_terms (ranked_at 7) out ∧ t ∈ out ∧ term t = Str "t16").
Proof.
  split; [unfold ranked_at; simpl; set_solver|]. split; [reflexivity|].
  split; [apply top_terms_groups_ranked|]. split; [apply top_terms_groups_ranked|].
  split; [eapply top_terms_exists, top_terms_groups_ranked|].
  intros (out & t & (groups & sorted & Hg & [Hperm Hsorted] & ->) & Ht & Hterm).
  rewrite top_terms_groups_ranked in Hg. injection Hg as <-.
  set (last := {| term := Str "t16"; clicks := F64.of_Z 1; impressions := F64.of_Z 5 |}).
  assert (Forall (λ u, term u = Str "t16" → u = last) ranked_groups) as Hlast
    by (apply (bool_decide_unpack _); by vm_compute).
  assert (Forall (λ u, u ≠ last → ¬ by_clicks_desc last u) ranked_groups) as Hlow
    by (apply (bool_decide_unpack _); by vm_compute).
  assert (NoDup ranked_groups) as Hnd
    by (apply (bool_decide_unpack _); by vm_compute).
  rewrite Forall_forall in Hlast, Hlow.
  assert (t = last) as ->.
  { apply Hlast; [|done]. rewrite <-Hperm. apply elem_of_take in Ht as (i & Hi & _).
    by eapply list_elem_of_lookup_2. }
  assert (length sorted = 16) as Hlen by (by rewrite Hperm).
  destruct (drop 15 sorted) as [|v rest] eqn:Hdrop.
  { apply (f_equal length) in Hdrop. rewrite length_drop in Hdrop. simpl in Hdrop. lia. }
  assert (v ∈ drop 15 sorted) as Hv by (rewrite Hdrop; by left).
  rewrite <-Hperm, <-(take_drop 15 sorted) in Hnd.
  apply NoDup_app in Hnd as (_ & Hdisj & _).
  assert (v ∈ sorted) as Hvs.
  { rewrite <-(take_drop 15 sorted). apply elem_of_app. by right. }
  apply (Hlow v).
  - by rewrite <-Hperm.
  - intros ->. by apply (Hdisj last).
  - apply (take_sorted_cut _ sorted 15); try done. intros Hvt. by apply (Hdisj v).
Qed.

(** ** Ingestion: which files end up in the Dataset *)

Section Further_ingestion.

Variable parse_number : string → option float64.

(** X3. When at least one uploaded file is read, the run continues with
    the concatenation of the frames that were read, and the error of every
    rejected file is shown. *)
Theorem ingestion_skips_rejected_files files f t :
  f ∈ files → parsed f = Ok t →
  ∃ shown df,
    ingestion parse_number files = (shown, Continue df) ∧
    pd_concat (omap (λ f, match read_csv parse_number f with
                          | Ok df => Some (set_column "account" (Str (name f)) df)
                          | Raise _ => None
                          end) files) = Ok df ∧
    ∀ f' e, f' ∈ files → parsed f' = Raise e → ErrorReading (name f') e ∈ shown.
Proof.
  intros Hf Ht.
  destruct (ingestion_some_read parse_number files f t Hf Ht)
    as (shown & df & Hing & Hcat & Hshown).
  exists shown, df. by rewrite <-load_files_frames.
Qed.

(** X4. The prompt to upload reports is shown exactly when no file was
    uploaded. *)
Theorem ingestion_prompt_only_without_files files :
  UploadPrompt ∈ (ingestion parse_number files).1 ↔ files = [].
Proof. apply ingestion_prompt_iff. Qed.

End Further_ingestion.

Lemma ingestion_skips_rejected_files_witness :
  report_a ∈ [report_a; report_bad] ∧
  ∃ shown df,
    ingestion parse_integer [report_a; report_bad] = (shown, Continue df) ∧
    pd_concat (omap (λ f, match read_csv parse_integer f with
                          | Ok df => Some (set_column "account" (Str (name f)) df)
                          | Raise _ => None
                          end) [report_a; report_bad]) = Ok df ∧
    ∀ f' e, f' ∈ [report_a; report_bad] → parsed f' = Raise e →
            ErrorReading (name f') e ∈ shown.
Proof.
  assert (report_a ∈ [report_a; report_bad]) as Hin by (by left).
  split; [exact Hin|].
  exact (ingestion_skips_rejected_files parse_integer _ report_a _ Hin eq_refl).
Defined.

(** ** The Dataset Ingestion builds *)

Lemma positions_from_absent n col cols :
  col ∉ cols → positions_from n col cols = [].
Proof.
  revert n. induction cols as [|c cs IH]; intros n Hnot; simpl; [done|].
  apply not_elem_of_cons in Hnot as [Hne Hnot].
  rewrite decide_False by done. by apply IH.
Qed.

(** A label of a list of distinct labels stands at exactly one position. *)
Lemma positions_from_NoDup n col cols :
  NoDup cols → col ∈ cols → ∃ i, positions_from n col cols = [i].
Proof.
  intros Hnd. revert n. induction Hnd as [|c cs Hc _ IH]; intros n Hin; simpl.
  - by apply elem_of_nil in Hin.
  - case_decide as Hcc.
    + subst c. exists n. by rewrite positions_from_absent.
    + apply elem_of_cons in Hin as [->|Hin]; [done|]. by apply IH.
Qed.

Section Dataset_facts.

Variable parse_number : string → option float64.

Lemma load_files_frame files d :
  d ∈ (load_files parse_number files).2 →
  ∃ f t d0, f ∈ files ∧ parsed f = Ok t ∧ read_csv parse_number f = Ok d0 ∧
            d = set_column "account" (Str (name f)) d0.
Proof.
  rewrite load_files_frames. intros (f & Hf & Hd)%list_elem_of_omap.
  destruct (read_csv parse_number f) as [d0|] eqn:Hr; [|done].
  injection Hd as <-. pose proof Hr as Hr'. unfold read_csv in Hr'.
  destruct (parsed f) as [t|] eqn:Ht; [|done]. by exists f, t, d0.
Qed.

Lemma read_csv_shape f t d0 :
  parsed f = Ok t → read_csv parse_number f = Ok d0 →
  columns d0 = header t ∧ length (data d0) = length (records t) ∧
  ∀ r, r ∈ data d0 → length r = length (columns d0).
Proof.
  unfold read_csv. intros ->. simpl. intros [= <-]. simpl.
  split; [done|]. split; [by rewrite length_fmap|].
  intros r (rec & -> & _)%list_elem_of_fmap. by rewrite length_imap.
Qed.

(** After [df["account"] = v] the column exists and holds [v] in every row. *)
Lemma set_column_cell col v d0 r :
  (∀ r0, r0 ∈ data d0 → length r0 = length (columns d0)) →
  r ∈ data (set_column col v d0) →
  ∃ i, index_of col (columns (set_column col v d0)) = Some i ∧ r !! i = Some v.
Proof.
  intros Hrect. unfold set_column.
  destruct (index_of col (columns d0)) as [i|] eqn:Hi; simpl;
    intros (r0 & -> & Hr0)%list_elem_of_fmap.
  - exists i. split; [done|]. apply list_lookup_insert_eq.
    rewrite (Hrect r0 Hr0). apply index_of_Some in Hi. by eapply lookup_lt_Some.
  - exists (length (columns d0)). split.
    + unfold index_of in *. destruct (list_find _ (columns d0)) eqn:Hf; [done|].
      rewrite list_find_app_r by done. simpl. by rewrite decide_True.
    + rewrite <-(Hrect r0 Hr0). by rewrite lookup_app_r, Nat.sub_diag.
Qed.

Lemma set_column_columns col v d0 c :
  c ∈ columns (set_column col v d0) ↔ c = col ∨ c ∈ columns d0.
Proof.
  unfold set_column. destruct (index_of col (columns d0)) as [i|] eqn:Hi; simpl.
  - apply index_of_Some, list_elem_of_lookup_2 in Hi. naive_solver.
  - rewrite elem_of_app, list_elem_of_singleton. naive_solver.
Qed.

Lemma set_column_length col v d0 :
  length (data (set_column col v d0)) = length (data d0).
Proof.
  unfold set_column. destruct (index_of col (columns d0)); simpl; by rewrite length_fmap.
Qed.

Lemma ingestion_Continue files shown df :
  ingestion parse_number files = (shown, Continue df) →
  let dfs := (load_files parse_number files).2 in
  dfs ≠ [] ∧
  columns df = first_seen (mjoin (columns <$> dfs)) ∧
  data df = mjoin (reindex (columns df) <$> dfs).
Proof.
  unfold ingestion. destruct files as [|f fs]; [done|].
  destruct (load_files parse_number (f :: fs)) as [shown' dfs]. simpl.
  destruct dfs as [|d ds]; simpl; [done|]. by intros [= _ <-].
Qed.

(** X6. Every row of the Dataset carries, in its one account column, the
    name of an uploaded file that was read. *)
Theorem dataset_rows_tagged files shown df :
  ingestion parse_number files = (shown, Continue df) →
  ∃ a, positions "account" df = [a] ∧
       ∀ r, r ∈ data df →
            ∃ f t, f ∈ files ∧ parsed f = Ok t ∧ r !! a = Some (Str (name f)).
Proof.
  intros (Hne & Hcols & Hdata)%ingestion_Continue.
  assert (NoDup (columns df)) as Hnd by (rewrite Hcols; apply first_seen_NoDup).
  assert ("account"%string ∈ columns df) as Hacc.
  { rewrite Hcols, elem_of_first_seen.
    destruct (load_files parse_number files).2 as [|d ds] eqn:Hl; [done|].
    assert (d ∈ (load_files parse_number files).2) as Hd by (rewrite Hl; by left).
    apply load_files_frame in Hd as (f & t & d0 & _ & _ & _ & ->).
    rewrite fmap_cons. simpl. apply elem_of_app. left.
    apply set_column_columns. by left. }
  destruct (positions_from_NoDup 0 _ _ Hnd Hacc) as [a Ha].
  exists a. split; [done|]. intros r Hr. rewrite Hdata in Hr.
  apply list_elem_of_join in Hr as (rs & Hr & Hrs).
  apply list_elem_of_fmap in Hrs as (d & -> & Hd).
  apply load_files_frame in Hd as (f & t & d0 & Hf & Ht & Hread & ->).
  exists f, t. split; [done|]. split; [done|].
  apply list_elem_of_fmap in Hr as (r0 & -> & Hr0).
  destruct (read_csv_shape f t d0 Ht Hread) as (_ & _ & Hrect).
  destruct (set_column_cell "account" (Str (name f)) d0 r0 Hrect Hr0) as (i & Hi & Hcell).
  assert (columns df !! a = Some "account"%string) as Hca.
  { apply elem_of_positions. unfold positions. rewrite Ha. by left. }
  rewrite list_lookup_fmap, Hca. simpl. rewrite Hi. unfold cell_at. by rewrite Hcell.
Qed.

(** X7. The Dataset has one row per record of the files that were read,
    none for a file that was rejected. *)
Theorem dataset_row_count files shown df :
  ingestion parse_number files = (shown, Continue df) →
  length (data df)
  = sum_list_with (λ f, match parsed f with
                        | Ok t => length (records t)
                        | Raise _ => 0
                        end) files.
Proof.
  intros (_ & _ & ->)%ingestion_Continue.
  generalize (columns df). intros cols. clear df shown.
  induction files as [|f fs IH]; [done|]. simpl.
  destruct (load_files parse_number fs) as [shown dfs]. simpl in IH.
  destruct (read_csv parse_number f) as [d0|] eqn:Hread; simpl.
  - unfold read_csv in Hread. destruct (parsed f) as [t|] eqn:Ht; [|done].
    rewrite length_app. f_equal; [|exact IH]. unfold reindex.
    rewrite length_fmap, set_column_length.
    simpl in Hread. injection Hread as <-. simpl. by rewrite length_fmap.
  - unfold read_csv in Hread. destruct (parsed f); [done|]. exact IH.
Qed.

(** X8. The Dataset is rectangular, its labels are distinct, and they are
    account together with the header labels of the files that were read. *)
Theorem dataset_columns files shown df :
  ingestion parse_number files = (shown, Continue df) →
  NoDup (columns df) ∧
  (∀ r, r ∈ data df → length r = length (columns df)) ∧
  ∀ c, c ∈ columns df ↔
       c = "account"%string ∨
       ∃ f t, f ∈ files ∧ parsed f = Ok t ∧ c ∈ header t.
Proof.
  intros Hing. pose proof Hing as (Hne & Hcols & Hdata)%ingestion_Continue.
  split; [rewrite Hcols; apply first_seen_NoDup|]. split.
  { intros r Hr. by destruct (ingestion_ok _ _ _ _ Hing r Hr). }
  intros c. rewrite Hcols, elem_of_first_seen, list_elem_of_join. split.
  - intros (cs & Hc & Hcs). apply list_elem_of_fmap in Hcs as (d & -> & Hd).
    apply load_files_frame in Hd as (f & t & d0 & Hf & Ht & Hread & ->).
    apply set_column_columns in Hc as [->|Hc]; [by left|right].
    exists f, t. destruct (read_csv_shape f t d0 Ht Hread) as (<- & _). done.
  - intros [->|(f & t & Hf & Ht & Hc)].
    + destruct (load_files parse_number files).2 as [|d ds] eqn:Hl; [done|].
      exists (columns d). split; [|rewrite fmap_cons; by left].
      assert (d ∈ (load_files parse_number files).2) as Hd by (rewrite Hl; by left).
      apply load_files_frame in Hd as (f & t & d0 & _ & _ & _ & ->).
      apply set_column_columns. by left.
    + destruct (read_csv parse_number f) as [d0|] eqn:Hread;
        [|unfold read_csv in Hread; by rewrite Ht in Hread].
      exists (columns (set_column "account" (Str (name f)) d0)). split.
      * apply set_column_columns. right.
        by destruct (read_csv_shape f t d0 Ht Hread) as (-> & _).
      * apply list_elem_of_fmap. eexists. split; [done|].
        rewrite load_files_frames. apply list_elem_of_omap. exists f.
        split; [done|]. by rewrite Hread.
Qed.

End Dataset_facts.

Lemma dataset_rows_tagged_witness :
  ingestion parse_integer [report_a; report_bad]
  = ([ErrorReading "bad.csv" (OtherError "No columns to parse from file")],
     Continue dataset_a) ∧
  ∃ a, positions "account" dataset_a = [a] ∧
       ∀ r, r ∈ data dataset_a →
            ∃ f t, f ∈ [report_a; report_bad] ∧ parsed f = Ok t ∧
                   r !! a = Some (Str (name f)).
Proof.
  split; [exact ingestion_example|].
  exact (dataset_rows_tagged parse_integer _ _ _ ingestion_example).
Defined.

Lemma dataset_row_count_witness :
  ingestion parse_integer [report_a; report_bad]
  = ([ErrorReading "bad.csv" (OtherError "No columns to parse from file")],
     Continue dataset_a) ∧
  length (data dataset_a)
  = sum_list_with (λ f, match parsed f with
                        | Ok t => length (records t)
                        | Raise _ => 0
                        end) [report_a; report_bad].
Proof.
  split; [exact ingestion_example|].
  exact (dataset_row_count parse_integer _ _ _ ingestion_example).
Defined.

Lemma dataset_columns_witness :
  ingestion parse_integer [report_a; report_bad]
  = ([ErrorReading "bad.csv" (OtherError "No columns to parse from file")],
     Continue dataset_a) ∧
  NoDup (columns dataset_a) ∧
  (∀ r, r ∈ data dataset_a → length r = length (columns dataset_a)) ∧
  ∀ c, c ∈ columns dataset_a ↔
       c = "account"%string ∨
       ∃ f t, f ∈ [report_a; report_bad] ∧ parsed f = Ok t ∧ c ∈ header t.
Proof.
  split; [exact ingestion_example|].
  exact (dataset_columns parse_integer _ _ _ ingestion_example).
Defined.

(** ** Normalization: columns, errors, and what it leaves alone *)

Lemma rename_label_inv c v :
  rename_label c = v → c = v ∨ (c, v) ∈ rename_map.
Proof.
  unfold rename_label. destruct (list_find _ rename_map) as [[i [k v']]|] eqn:Hf.
  - intros <-. apply list_find_Some in Hf as (Hi & Hk & _). simpl in Hk. subst k.
    right. by eapply list_elem_of_lookup_2.
  - intros <-. by left.
Qed.

Lemma positions_rename_nil col df :
  (∀ c, c ∈ columns df → rename_label c ≠ col) → positions col (rename df) = [].
Proof.
  intros Hno. destruct (positions col (rename df)) as [|i ps] eqn:Hp; [done|].
  assert (i ∈ positions col (rename df)) as Hi by (rewrite Hp; by left).
  apply elem_of_positions in Hi. simpl in Hi. rewrite list_lookup_fmap in Hi.
  destruct (columns df !! i) as [c|] eqn:Hc; [|done]. injection Hi as Hi.
  destruct (Hno c); [by eapply list_elem_of_lookup_2|done].
Qed.

Section Normalization_errors.

Variable parse_number : string → option float64.

Lemma clean_column_step col df i :
  positions col df = [i] →
  clean_column parse_number col df
  = Ok {| columns := columns df;
          data := alter (clean_number parse_number) i <$> data df |}.
Proof. intros Hi. unfold clean_column, column_index. by rewrite Hi. Qed.

Lemma clean_column_missing col df :
  positions col df = [] → clean_column parse_number col df = Raise (KeyError col).
Proof. intros Hi. unfold clean_column, column_index. by rewrite Hi. Qed.

(** X9. Normalization does not invent a core column: when the frame has no
    column that is, or is renamed to, one of impressions, clicks, cost and
    search_term, while the other numeric columns are each there once, it
    raises the KeyError of that label. *)
Theorem normalization_missing_column df col :
  col ∈ ["impressions"; "clicks"; "cost"; "search_term"]%string →
  (∀ c, c ∈ columns df → rename_label c ≠ col) →
  (∀ col', col' ∈ numeric_columns → col' ≠ col →
           ∃ i, positions col' (rename df) = [i]) →
  normalization parse_number df = Raise (KeyError col).
Proof.
  intros Hcol Hno Hothers.
  pose proof (positions_rename_nil col df Hno) as Hnil.
  unfold normalization, numeric_columns in *. simpl.
  set_unfold in Hcol.
  destruct Hcol as [->|[->|[->|[->|[]]]]].
  - by rewrite clean_column_missing.
  - destruct (Hothers "impressions"%string) as [i Hi]; [set_solver|done|].
    rewrite (clean_column_step _ _ i Hi). simpl.
    by rewrite clean_column_missing.
  - destruct (Hothers "impressions"%string) as [i Hi]; [set_solver|done|].
    destruct (Hothers "clicks"%string) as [j Hj]; [set_solver|done|].
    rewrite (clean_column_step _ _ i Hi). simpl.
    rewrite (clean_column_step _ _ j) by done. simpl.
    by rewrite clean_column_missing.
  - destruct (Hothers "impressions"%string) as [i Hi]; [set_solver|done|].
    destruct (Hothers "clicks"%string) as [j Hj]; [set_solver|done|].
    destruct (Hothers "cost"%string) as [k Hk]; [set_solver|done|].
    rewrite (clean_column_step _ _ i Hi). simpl.
    rewrite (clean_column_step _ _ j) by done. simpl.
    rewrite (clean_column_step _ _ k) by done. simpl.
    unfold dropna. unfold positions in *. simpl in *. by rewrite Hnil.
Qed.

(** X10. A report that has the vendor label and the canonical label of
    impressions at once is refused: after the renaming the label names two
    columns, and [pd.to_numeric] raises a TypeError on the frame it gets. *)
Theorem normalization_duplicate_column df :
  "Impr."%string ∈ columns df → "impressions"%string ∈ columns df →
  normalization parse_number df
  = Raise (TypeError "arg must be a list, tuple, 1-d array, or Series").
Proof.
  intros [i Hi]%list_elem_of_lookup [j Hj]%list_elem_of_lookup.
  assert (i ≠ j) as Hij by (intros ->; congruence).
  assert (i ∈ positions "impressions" (rename df)) as Hpi.
  { apply elem_of_positions. simpl. by rewrite list_lookup_fmap, Hi. }
  assert (j ∈ positions "impressions" (rename df)) as Hpj.
  { apply elem_of_positions. simpl. by rewrite list_lookup_fmap, Hj. }
  unfold normalization, numeric_columns. simpl.
  assert (clean_column parse_number "impressions" (rename df)
          = Raise (TypeError "arg must be a list, tuple, 1-d array, or Series")) as ->;
    [|done].
  unfold clean_column, column_index.
  destruct (positions "impressions" (rename df)) as [|p [|q ps]]; [| |done].
  - by apply elem_of_nil in Hpi.
  - apply list_elem_of_singleton in Hpi, Hpj. congruence.
Qed.

(** X11. Normalization succeeds only on a frame that has a column for
    each of impressions, clicks, cost and search_term, under the vendor
    label or the canonical one. *)
Theorem normalization_needs_columns df df' :
  normalization parse_number df = Ok df' →
  ("Impr."%string ∈ columns df ∨ "impressions"%string ∈ columns df) ∧
  ("Interactions"%string ∈ columns df ∨ "clicks"%string ∈ columns df) ∧
  ("Cost"%string ∈ columns df ∨ "cost"%string ∈ columns df) ∧
  ("Search term"%string ∈ columns df ∨ "search_term"%string ∈ columns df).
Proof.
  intros (i & j & k & Hi & Hj & Hk & Hps & Hcols & _)%normalization_Ok.
  assert (∀ col vendor,
            (∀ c, rename_label c = col → c = vendor ∨ c = col) →
            positions col df' ≠ [] → vendor ∈ columns df ∨ col ∈ columns df) as Hfind.
  { intros col vendor Hinv Hp.
    destruct (positions col df') as [|p ps] eqn:Hpos; [done|].
    assert (p ∈ positions col df') as Hin by (rewrite Hpos; by left).
    apply elem_of_positions in Hin. rewrite Hcols, list_lookup_fmap in Hin.
    destruct (columns df !! p) as [c|] eqn:Hc; [|done]. injection Hin as Hin.
    apply list_elem_of_lookup_2 in Hc.
    destruct (Hinv c Hin) as [->| ->]; [by left|by right]. }
  assert (∀ col vendor, (vendor, col) ∈ rename_map →
            (∀ v', (v', col) ∈ rename_map → v' = vendor) →
            ∀ c, rename_label c = col → c = vendor ∨ c = col) as Hinv.
  { intros col vendor _ Huniq c [->|Hc]%rename_label_inv; [by right|left]. by apply Huniq. }
  repeat split; (apply Hfind; [|by rewrite ?Hi, ?Hj, ?Hk]);
    (apply Hinv; [unfold rename_map; set_solver|]);
    intros v' Hv'; unfold rename_map in Hv'; set_unfold in Hv'; naive_solver.
Qed.

(** X12. Normalization renames the labels, drops rows without adding any,
    and leaves every cell outside impressions, clicks and cost as it was. *)
Theorem normalization_frame df df' :
  normalization parse_number df = Ok df' →
  columns df' = rename_label <$> columns df ∧
  length (data df') ≤ length (data df) ∧
  ∀ r', r' ∈ data df' →
        ∃ r, r ∈ data df ∧ length r' = length r ∧
             ∀ p c, columns df' !! p = Some c → c ∉ numeric_columns →
                    r' !! p = r !! p.
Proof.
  intros Hn. pose proof Hn as (i & j & k & Hi & Hj & Hk & _ & Hcols & Hd)%normalization_Ok.
  split; [done|]. split.
  { rewrite Hd. etrans; [apply length_filter|]. by rewrite !length_fmap. }
  intros r' Hr'.
  destruct (normalization_row _ _ _ _ Hn Hr')
    as (i' & j' & k' & r & Hi' & Hj' & Hk' & Hr & -> & _).
  rewrite Hi in Hi'. rewrite Hj in Hj'. rewrite Hk in Hk'. simplify_eq.
  exists r. split; [done|]. split; [by rewrite !length_alter|].
  intros p c Hp Hc.
  assert (∀ q col, positions col df' = [q] → col ∈ numeric_columns → q ≠ p) as Hne.
  { intros q col Hq Hcol ->.
    assert (p ∈ positions col df') as Hin by (rewrite Hq; by left).
    apply elem_of_positions in Hin. congruence. }
  unfold numeric_columns in *.
  rewrite !list_lookup_alter_ne; [done|..]; eapply Hne; try done; set_solver.
Qed.

End Normalization_errors.

Lemma normalization_missing_column_witness :
  normalization parse_integer no_impressions = Raise (KeyError "impressions").
Proof.
  apply (normalization_missing_column parse_integer no_impressions "impressions").
  - by left.
  - intros c Hc. unfold no_impressions in Hc. simpl in Hc. set_unfold in Hc.
    by destruct Hc as [->|[->|[->|[]]]].
  - intros col' Hcol' Hne. unfold numeric_columns in Hcol'. set_unfold in Hcol'.
    destruct Hcol' as [->|[->|[->|[]]]]; [done|by exists 1|by exists 2].
Defined.

Lemma normalization_duplicate_column_witness :
  "Impr."%string ∈ columns twice_impressions ∧
  "impressions"%string ∈ columns twice_impressions ∧
  normalization parse_integer twice_impressions
  = Raise (TypeError "arg must be a list, tuple, 1-d array, or Series").
Proof.
  assert ("Impr."%string ∈ columns twice_impressions) as H1
    by (unfold twice_impressions; simpl; set_solver).
  assert ("impressions"%string ∈ columns twice_impressions) as H2
    by (unfold twice_impressions; simpl; set_solver).
  split; [exact H1|]. split; [exact H2|].
  exact (normalization_duplicate_column parse_integer twice_impressions H1 H2).
Defined.

Lemma normalization_needs_columns_witness :
  normalization parse_integer dataset_a = Ok normalized_a ∧
  ("Impr."%string ∈ columns dataset_a ∨ "impressions"%string ∈ columns dataset_a) ∧
  ("Interactions"%string ∈ columns dataset_a ∨ "clicks"%string ∈ columns dataset_a) ∧
  ("Cost"%string ∈ columns dataset_a ∨ "cost"%string ∈ columns dataset_a) ∧
  ("Search term"%string ∈ columns dataset_a ∨ "search_term"%string ∈ columns dataset_a).
Proof.
  split; [exact normalization_example|].
  exact (normalization_needs_columns parse_integer _ _ normalization_example).
Defined.

Lemma normalization_frame_witness :
  normalization parse_integer dataset_a = Ok normalized_a ∧
  columns normalized_a = rename_label <$> columns dataset_a ∧
  length (data normalized_a) ≤ length (data dataset_a) ∧
  ∀ r', r' ∈ data normalized_a →
        ∃ r, r ∈ data dataset_a ∧ length r' = length r ∧
             ∀ p c, columns normalized_a !! p = Some c → c ∉ numeric_columns →
                    r' !! p = r !! p.
Proof.
  split; [exact normalization_example|].
  exact (normalization_frame parse_integer _ _ normalization_example).
Defined.

(** ** Filter context *)

Lemma filter_all {A} (P : A → Prop) `{!∀ x, Decision (P x)} (l : list A) :
  (∀ x, x ∈ l → P x) → filter P l = l.
Proof.
  induction l as [|x l IH]; intros Hall; [done|].
  rewrite filter_cons_True by (apply Hall; by left).
  f_equal. apply IH. intros y Hy. apply Hall. by right.
Qed.

Lemma chosen_spec sel v :
  chosen sel v = true ↔ sel = Str "All" ∨ cell_eqb v sel = true.
Proof.
  unfold chosen. rewrite orb_true_iff, bool_decide_eq_true. done.
Qed.

(** What one selector leaves of a frame. *)
Lemma selector_rows i sel df :
  data (if decide (sel = Str "All") then df else select_rows i sel df)
  = filter (λ r, chosen sel (cell_at i r)) (data df).
Proof.
  case_decide as Hsel.
  - symmetry. apply filter_all. intros r _. apply Is_true_true, chosen_spec. by left.
  - simpl. apply list_filter_iff. intros r. rewrite !Is_true_true, chosen_spec. naive_solver.
Qed.

Lemma selector_columns i sel df :
  columns (if decide (sel = Str "All") then df else select_rows i sel df) = columns df.
Proof. by case_decide. Qed.

(** The two selectors one after the other. *)
Lemma filter_context_Ok account_sel campaign_sel df out :
  filter_context account_sel campaign_sel df = Ok out →
  ∃ a c,
    positions "account" df = [a] ∧ positions "campaign" df = [c] ∧
    columns out = columns df ∧
    data out = filter (λ r, chosen campaign_sel (cell_at c r))
                 (filter (λ r, chosen account_sel (cell_at a r)) (data df)).
Proof.
  unfold filter_context.
  destruct (column_index _ "account" df) as [a|] eqn:Ha; [|done]. simpl.
  apply column_index_Ok in Ha.
  destruct (column_index _ "campaign" _) as [c|] eqn:Hc; [|done]. simpl.
  apply column_index_Ok in Hc.
  rewrite (positions_columns "campaign" _ df) in Hc by apply selector_columns.
  intros [= <-]. exists a, c. split; [done|]. split; [done|].
  pose proof (selector_rows a account_sel df) as Hacc.
  pose proof (selector_columns a account_sel df) as Hcols.
  destruct (if decide (account_sel = Str "All") then df else select_rows a account_sel df)
    as [cols rows]. simpl in *. subst cols rows.
  pose proof (selector_rows c campaign_sel
                {| columns := columns df;
                   data := filter (λ r, chosen account_sel (cell_at a r)) (data df) |}) as Hcam.
  simpl in Hcam. rewrite <-Hcam.
  destruct (decide (campaign_sel = Str "All")) as [->|Hne].
  - rewrite decide_False by (by intros ?). done.
  - by rewrite decide_True.
Qed.

(** X13. The filtered frame keeps the labels and holds, in their order,
    exactly the rows of the Dataset whose account equals the selected one
    (any, for All) and whose campaign equals the selected one (any, for All),
    where equal is Python's [==] on a text or a number; with All twice it is
    the Dataset itself, and the missing value, when it is picked, selects no
    row at all. *)
Theorem filter_context_rows account_sel campaign_sel df out :
  filter_context account_sel campaign_sel df = Ok out →
  ∃ a c,
    positions "account" df = [a] ∧ positions "campaign" df = [c] ∧
    columns out = columns df ∧
    data out = filter (λ r, chosen account_sel (cell_at a r) &&
                            chosen campaign_sel (cell_at c r)) (data df) ∧
    data out `sublist_of` data df ∧
    (∀ r, r ∈ data out ↔
          r ∈ data df ∧
          (account_sel = Str "All" ∨ cell_eqb (cell_at a r) account_sel = true) ∧
          (campaign_sel = Str "All" ∨ cell_eqb (cell_at c r) campaign_sel = true)) ∧
    (account_sel = Str "All" → campaign_sel = Str "All" → out = df) ∧
    (isna account_sel = true ∨ isna campaign_sel = true → data out = []).
Proof.
  intros (a & c & Ha & Hc & Hcols & Hd)%filter_context_Ok.
  exists a, c. split; [done|]. split; [done|]. split; [done|].
  assert (data out = filter (λ r, chosen account_sel (cell_at a r) &&
                                  chosen campaign_sel (cell_at c r)) (data df)) as Hd'.
  { rewrite Hd, list_filter_filter. apply list_filter_iff. intros r.
    rewrite andb_True. naive_solver. }
  assert (∀ r, r ∈ data out ↔
            r ∈ data df ∧
            (account_sel = Str "All" ∨ cell_eqb (cell_at a r) account_sel = true) ∧
            (campaign_sel = Str "All" ∨ cell_eqb (cell_at c r) campaign_sel = true)) as Hiff.
  { intros r. rewrite Hd', list_elem_of_filter, andb_True, !Is_true_true, !chosen_spec.
    naive_solver. }
  split; [done|]. split; [rewrite Hd'; apply sublist_filter|]. split; [done|]. split.
  - intros -> ->. destruct out as [cols rows], df as [cols' rows']. simpl in *.
    f_equal; [done|]. rewrite Hd'. apply filter_all. intros r _. done.
  - intros Hna. destruct (data out) as [|r rows] eqn:Hout; [done|]. exfalso.
    assert (r ∈ r :: rows) as Hr by (by left).
    apply Hiff in Hr as (_ & Hacc & Hcam).
    destruct Hna as [Hna|Hna].
    + destruct Hacc as [->|Heq]; [done|].
      apply (cell_eqb_isna _ (cell_at a r)) in Hna as [_ Hf]. congruence.
    + destruct Hcam as [->|Heq]; [done|].
      apply (cell_eqb_isna _ (cell_at c r)) in Hna as [_ Hf]. congruence.
Qed.

Lemma filter_context_two_accounts :
  filter_context (Str "b.csv") (Num (F64.of_Z 2024)) two_accounts = Ok campaign_2024.
Proof. by vm_compute. Qed.

Lemma filter_context_rows_witness :
  filter_context (Str "b.csv") (Num (F64.of_Z 2024)) two_accounts = Ok campaign_2024 ∧
  length (data campaign_2024) = 1 ∧ length (data two_accounts) = 4 ∧
  ∃ a c,
    positions "account" two_accounts = [a] ∧ positions "campaign" two_accounts = [c] ∧
    columns campaign_2024 = columns two_accounts ∧
    data campaign_2024
    = filter (λ r, chosen (Str "b.csv") (cell_at a r) &&
                   chosen (Num (F64.of_Z 2024)) (cell_at c r)) (data two_accounts) ∧
    data campaign_2024 `sublist_of` data two_accounts ∧
    (∀ r, r ∈ data campaign_2024 ↔
          r ∈ data two_accounts ∧
          (Str "b.csv" = Str "All" ∨ cell_eqb (cell_at a r) (Str "b.csv") = true) ∧
          (Num (F64.of_Z 2024) = Str "All" ∨
           cell_eqb (cell_at c r) (Num (F64.of_Z 2024)) = true)) ∧
    (Str "b.csv" = Str "All" → Num (F64.of_Z 2024) = Str "All" →
     campaign_2024 = two_accounts) ∧
    (isna (Str "b.csv") = true ∨ isna (Num (F64.of_Z 2024)) = true →
     data campaign_2024 = []).
Proof.
  split; [exact filter_context_two_accounts|]. split; [reflexivity|]. split; [reflexivity|].
  exact (filter_context_rows _ _ _ _ filter_context_two_accounts).
Defined.

(** X5. Narrowing the campaign never adds rows: the frame shown for an
    account and one campaign is the campaign selection applied to the frame
    shown for that account and all campaigns, so its rows are among the
    rows of that frame, in the same order. *)
Theorem filter_context_campaign_sublist account_sel campaign_sel df all one :
  filter_context account_sel (Str "All") df = Ok all →
  filter_context account_sel campaign_sel df = Ok one →
  ∃ c, positions "campaign" all = [c] ∧
       data one = filter (λ r, chosen campaign_sel (cell_at c r)) (data all) ∧
       data one `sublist_of` data all ∧ length (data one) ≤ length (data all).
Proof.
  intros (a & c & Ha & Hc & Hcols & Hd)%filter_context_Ok
         (a' & c' & Ha' & Hc' & Hcols' & Hd')%filter_context_Ok.
  rewrite Ha in Ha'. rewrite Hc in Hc'. injection Ha' as <-. injection Hc' as <-.
  rewrite (filter_all (λ r, chosen (Str "All") (cell_at c r))) in Hd by done.
  exists c. split; [by rewrite (positions_columns "campaign" all df)|].
  rewrite Hd' , <-Hd. split; [done|].
  split; [apply sublist_filter|]. apply sublist_length, sublist_filter.
Qed.

Lemma filter_context_account_b :
  filter_context (Str "b.csv") (Str "All") two_accounts = Ok account_b.
Proof. by vm_compute. Qed.

Lemma filter_context_campaign_sublist_witness :
  filter_context (Str "b.csv") (Str "All") two_accounts = Ok account_b ∧
  filter_context (Str "b.csv") (Num (F64.of_Z 2024)) two_accounts = Ok campaign_2024 ∧
  length (data campaign_2024) = 1 ∧ length (data account_b) = 2 ∧
  ∃ c, positions "campaign" account_b = [c] ∧
       data campaign_2024
       = filter (λ r, chosen (Num (F64.of_Z 2024)) (cell_at c r)) (data account_b) ∧
       data campaign_2024 `sublist_of` data account_b ∧
       length (data campaign_2024) ≤ length (data account_b).
Proof.
  split; [exact filter_context_account_b|].
  split; [exact filter_context_two_accounts|]. split; [reflexivity|]. split; [reflexivity|].
  exact (filter_context_campaign_sublist _ _ _ _ _
           filter_context_account_b filter_context_two_accounts).
Defined.

(** ** The Keyword Summary as a table, and Term Detail *)

Lemma unique_length cs : length (unique cs) ≤ length cs.
Proof.
  induction cs as [|c cs IH]; simpl; [done|].
  pose proof (length_filter (λ d, negb (cell_eqb c d)) (unique cs)). lia.
Qed.

Lemma agg_nunique_le cs : agg_nunique cs ≤ length cs.
Proof.
  unfold agg_nunique. etrans; [apply unique_length|]. apply length_filter.
Qed.

Lemma agg_nunique_pos cs c : c ∈ cs → isna c = false → 1 ≤ agg_nunique cs.
Proof.
  intros Hin Hna. unfold agg_nunique.
  assert (c ∈ filter notna cs) as Hc.
  { apply list_elem_of_filter. split; [unfold notna; by rewrite Hna|done]. }
  destruct (filter notna cs) as [|d ds]; [by apply elem_of_nil in Hc|]. simpl. lia.
Qed.

(** The group of a key is not empty. *)
Lemma group_rows_key i rows k :
  k ∈ group_keys i rows → ∃ r, r ∈ group_rows i k rows ∧ cell_at i r = k.
Proof.
  intros (Hna & r & Hr & <-)%elem_of_group_keys. exists r. split; [|done].
  apply list_elem_of_filter. split; [|done]. by rewrite cell_eqb_refl.
Qed.

Lemma elem_of_group_rows i k rows r :
  r ∈ group_rows i k rows ↔ cell_eqb (cell_at i r) k = true ∧ r ∈ rows.
Proof.
  unfold group_rows. rewrite list_elem_of_filter. by rewrite Is_true_true.
Qed.

(** X14. The Keyword Summary has exactly one row per keyword that occurs
    in the filtered frame: the keywords of its rows are distinct, every row
    with a keyword is in the group of one of them, the rows come in
    descending order of their number of distinct search terms, and that
    number is at most the size of the group and, when no search term is
    missing, at least 1. *)
Theorem summary_table df out :
  summary df out →
  ∃ kw st,
    positions "keyword" df = [kw] ∧ positions "search_term" df = [st] ∧
    NoDup ((λ row, keyword (totals row)) <$> out) ∧
    (∀ r, r ∈ data df → isna (cell_at kw r) = false →
          ∃ row, row ∈ out ∧ r ∈ group_rows kw (keyword (totals row)) (data df)) ∧
    StronglySorted (λ a b, total_search_terms (totals b) ≤ total_search_terms (totals a)) out ∧
    ∀ row, row ∈ out →
      total_search_terms (totals row)
      ≤ length (group_rows kw (keyword (totals row)) (data df)) ∧
      ((∀ r, r ∈ data df → isna (cell_at st r) = false) →
       1 ≤ total_search_terms (totals row)).
Proof.
  intros (groups & sorted & Hg & [Hperm Hsorted] & ->).
  apply summary_groups_Ok in Hg
    as (kw & st & im & cl & co & Hkw & Hst & Him & Hcl & Hco & Hg).
  exists kw, st. split; [done|]. split; [done|]. split; [|split; [|split]].
  - rewrite <-list_fmap_compose. simpl.
    assert ((keyword <$> sorted) ≡ₚ group_keys kw (data df)) as Hk.
    { rewrite Hperm, Hg, <-list_fmap_compose. simpl. by rewrite list_fmap_id. }
    unfold compose. simpl. rewrite Hk. apply group_keys_NoDup.
  - intros r Hr Hna.
    destruct (group_keys_represent kw _ r Hr Hna) as (k & Hk & Hrk).
    eexists (with_rates _). split.
    + apply list_elem_of_fmap. eexists. split; [done|]. rewrite Hperm, Hg.
      apply list_elem_of_fmap. by exists k.
    + done.
  - by apply (StronglySorted_fmap _ by_search_terms_desc).
  - intros row (t & -> & Ht)%list_elem_of_fmap. rewrite Hperm, Hg in Ht.
    apply list_elem_of_fmap in Ht as (k & -> & Hk). simpl. split.
    + etrans; [apply agg_nunique_le|]. by rewrite length_fmap.
    + intros Hall. destruct (group_rows_key kw _ k Hk) as (r & Hr & _).
      apply (agg_nunique_pos _ (cell_at st r)).
      * apply list_elem_of_fmap. by exists r.
      * apply Hall. by apply elem_of_group_rows in Hr as [_ Hr].
Qed.

Lemma summary_table_witness :
  summary filtered_b summary_b ∧
  ∃ kw st,
    positions "keyword" filtered_b = [kw] ∧ positions "search_term" filtered_b = [st] ∧
    NoDup ((λ row, keyword (totals row)) <$> summary_b) ∧
    (∀ r, r ∈ data filtered_b → isna (cell_at kw r) = false →
          ∃ row, row ∈ summary_b ∧
                 r ∈ group_rows kw (keyword (totals row)) (data filtered_b)) ∧
    StronglySorted (λ a b, total_search_terms (totals b) ≤ total_search_terms (totals a))
      summary_b ∧
    ∀ row, row ∈ summary_b →
      total_search_terms (totals row)
      ≤ length (group_rows kw (keyword (totals row)) (data filtered_b)) ∧
      ((∀ r, r ∈ data filtered_b → isna (cell_at st r) = false) →
       1 ≤ total_search_terms (totals row)).
Proof.
  split; [exact summary_b_shown|].
  exact (summary_table filtered_b summary_b summary_b_shown).
Defined.

Lemma term_detail_groups_Ok df k groups :
  term_detail_groups df k = Ok groups →
  ∃ kw st im cl co,
    positions "keyword" df = [kw] ∧ positions "search_term" df = [st] ∧
    positions "impressions" df = [im] ∧ positions "clicks" df = [cl] ∧
    positions "cost" df = [co] ∧
    groups = (λ t, let g := group_rows st t (group_rows kw k (data df)) in
                   {| detail_term := t;
                      detail_impressions := agg_sum (cell_at im <$> g);
                      detail_clicks := agg_sum (cell_at cl <$> g);
                      detail_cost := agg_sum (cell_at co <$> g) |})
             <$> group_keys st (group_rows kw k (data df)).
Proof.
  unfold term_detail_groups.
  destruct (column_index _ "keyword" df) as [kw|] eqn:Hkw; [|done]. simpl.
  destruct (column_index _ "search_term" _) as [st|] eqn:Hst; [|done]. simpl.
  destruct (column_index _ "impressions" _) as [im|] eqn:Him; [|done]. simpl.
  destruct (column_index _ "clicks" _) as [cl|] eqn:Hcl; [|done]. simpl.
  destruct (column_index _ "cost" _) as [co|] eqn:Hco; [|done]. simpl.
  intros [= <-]. exists kw, st, im, cl, co.
  repeat split; by eapply column_index_Ok.
Qed.

(** X15. When the Term Detail section shows a table, a keyword of the
    Keyword Summary was chosen, the table has as many rows as that keyword
    has distinct search terms in the summary (the count line 123 prints),
    each row is a search term of a row with that keyword, and the rows come
    in descending order of clicks. *)
Theorem term_detail_matches_summary df shown chosen_kw table :
  summary df shown →
  term_detail_section df shown chosen_kw (Some table) →
  ∃ k row kw st,
    chosen_kw = Some k ∧ truthy k = true ∧
    row ∈ shown ∧ keyword (totals row) = k ∧
    length table = total_search_terms (totals row) ∧
    positions "keyword" df = [kw] ∧ positions "search_term" df = [st] ∧
    (∀ d, d ∈ table →
          ∃ r, r ∈ data df ∧ cell_eqb (cell_at kw r) k = true ∧
               cell_at st r = detail_term d) ∧
    StronglySorted by_detail_clicks_desc table.
Proof.
  intros Hsum Hsec. destruct chosen_kw as [k|]; [|by destruct Hsec].
  destruct Hsec as [Hopt Htab].
  destruct (truthy k) eqn:Htruthy; [|done].
  destruct Htab as (out & [= <-] & groups & Hg & [Hperm Hsorted]).
  apply list_elem_of_filter in Hopt as [_ Hopt].
  apply list_elem_of_fmap in Hopt as (row & -> & Hrow).
  apply term_detail_groups_Ok in Hg
    as (kw & st & im & cl & co & Hkw & Hst & Him & Hcl & Hco & Hg).
  exists (keyword (totals row)), row, kw, st.
  do 4 (split; [done|]). split; [|split; [done|split; [done|split; [|done]]]].
  - destruct Hsum as (sgroups & sorted & Hsg & [Hsperm _] & ->).
    apply list_elem_of_fmap in Hrow as (t & -> & Ht). simpl.
    rewrite Hsperm in Ht.
    apply summary_groups_Ok in Hsg
      as (kw' & st' & im' & cl' & co' & Hkw' & Hst' & _ & _ & _ & ->).
    rewrite Hkw in Hkw'. rewrite Hst in Hst'.
    injection Hkw' as <-. injection Hst' as <-.
    apply list_elem_of_fmap in Ht as (k & -> & Hk). simpl.
    rewrite Hperm, Hg, length_fmap. unfold group_keys, agg_nunique.
    by rewrite merge_sort_Permutation.
  - intros d Hd. rewrite Hperm, Hg in Hd.
    apply list_elem_of_fmap in Hd as (t & -> & Ht). simpl.
    apply group_rows_key in Ht as (r & Hr & Hrt).
    apply elem_of_group_rows in Hr as [_ Hr].
    apply elem_of_group_rows in Hr as [Heq Hr]. by exists r.
Qed.

Lemma term_detail_boots :
  term_detail_section filtered_b summary_b (Some (Str "boots")) (Some boots_detail).
Proof.
  split; [apply (bool_decide_unpack _); by vm_compute|].
  simpl. exists boots_detail. split; [done|]. exists boots_detail.
  split; [by vm_compute|]. split; [done|]. repeat constructor.
Qed.

Lemma term_detail_matches_summary_witness :
  summary filtered_b summary_b ∧
  term_detail_section filtered_b summary_b (Some (Str "boots")) (Some boots_detail) ∧
  ∃ k row kw st,
    Some (Str "boots") = Some k ∧ truthy k = true ∧
    row ∈ summary_b ∧ keyword (totals row) = k ∧
    length boots_detail = total_search_terms (totals row) ∧
    positions "keyword" filtered_b = [kw] ∧ positions "search_term" filtered_b = [st] ∧
    (∀ d, d ∈ boots_detail →
          ∃ r, r ∈ data filtered_b ∧ cell_eqb (cell_at kw r) k = true ∧
               cell_at st r = detail_term d) ∧
    StronglySorted by_detail_clicks_desc boots_detail.
Proof.
  split; [exact summary_b_shown|]. split; [exact term_detail_boots|].
  exact (term_detail_matches_summary filtered_b summary_b _ _
           summary_b_shown term_detail_boots).
Defined.

(** ** Mapping *)

(** X16. The Mapping has the five labels of line 199 and one row of five
    cells per row of the filtered frame, none dropped and none merged: each
    row of the frame is there with its search term, keyword, impressions,
    clicks and cost, and the rows come in descending order of clicks. *)
Theorem mapping_rows df out :
  mapping df out →
  columns out = ["search_term"; "keyword"; "impressions"; "clicks"; "cost"]%string ∧
  length (data out) = length (data df) ∧
  (∀ row, row ∈ data out → length row = 5) ∧
  StronglySorted by_row_clicks_desc (data out) ∧
  ∃ st kw im cl co,
    positions "search_term" df = [st] ∧ positions "keyword" df = [kw] ∧
    positions "impressions" df = [im] ∧ positions "clicks" df = [cl] ∧
    positions "cost" df = [co] ∧
    ∀ row, row ∈ data out ↔
           ∃ r, r ∈ data df ∧
                row = [cell_at st r; cell_at kw r; cell_at im r; cell_at cl r;
                       cell_at co r].
Proof.
  intros (st & kw & im & cl & co & Hst & Hkw & Him & Hcl & Hco & Hcols & Hperm & Hsorted)%mapping_Ok.
  split; [done|]. split; [by rewrite Hperm, length_fmap|]. split; [|split; [done|]].
  - intros row. rewrite Hperm. by intros (r & -> & _)%list_elem_of_fmap.
  - exists st, kw, im, cl, co. do 5 (split; [done|]).
    intros row. rewrite Hperm, list_elem_of_fmap. naive_solver.
Qed.

Lemma mapping_b_shown : mapping filtered_b mapping_b.
Proof.
  exists [0; 1; 3; 4; 5]. split; [by vm_compute|]. split; [done|]. split.
  - unfold mapping_b, filtered_b, project. simpl.
    apply NoDup_Permutation.
    + apply (bool_decide_unpack _). by vm_compute.
    + apply (bool_decide_unpack _). by vm_compute.
    + intros row. set_solver.
  - apply (bool_decide_unpack _). by vm_compute.
Qed.

Lemma mapping_rows_witness :
  mapping filtered_b mapping_b ∧
  columns mapping_b = ["search_term"; "keyword"; "impressions"; "clicks"; "cost"]%string ∧
  length (data mapping_b) = length (data filtered_b) ∧
  (∀ row, row ∈ data mapping_b → length row = 5) ∧
  StronglySorted by_row_clicks_desc (data mapping_b) ∧
  ∃ st kw im cl co,
    positions "search_term" filtered_b = [st] ∧ positions "keyword" filtered_b = [kw] ∧
    positions "impressions" filtered_b = [im] ∧ positions "clicks" filtered_b = [cl] ∧
    positions "cost" filtered_b = [co] ∧
    ∀ row, row ∈ data mapping_b ↔
           ∃ r, r ∈ data filtered_b ∧
                row = [cell_at st r; cell_at kw r; cell_at im r; cell_at cl r;
                       cell_at co r].
Proof.
  split; [exact mapping_b_shown|].
  exact (mapping_rows filtered_b mapping_b mapping_b_shown).
Defined.

(** ** Cleaning a keyword *)

(** X17. The substitution of line 154 removes every opening bracket,
    closing bracket and double quote and nothing else: the other characters
    stay, in their order; applied twice it changes nothing more, and it
    works piece by piece on a concatenation. *)
Theorem strip_brackets_chars s :
  String.list_ascii_of_string (strip_brackets s)
  = filter (λ a, a ∉ ["["; "]"; "034"]%char) (String.list_ascii_of_string s) ∧
  strip_brackets (strip_brackets s) = strip_brackets s ∧
  ∀ s', strip_brackets (s +:+ s') = strip_brackets s +:+ strip_brackets s'.
Proof.
  split; [|split].
  - induction s as [|a s IH]; simpl; [done|].
    rewrite filter_cons. case_bool_decide as Ha.
    + by rewrite decide_False by (by intros H).
    + rewrite decide_True by done. simpl. by rewrite IH.
  - induction s as [|a s IH]; simpl; [done|].
    case_bool_decide as Ha; [done|]. simpl.
    rewrite bool_decide_eq_false_2 by done. by rewrite IH.
  - intros s'. induction s as [|a s IH]; [done|].
    change (strip_brackets (String a (s +:+ s'))
            = strip_brackets (String a s) +:+ strip_brackets s').
    simpl. case_bool_decide; [done|]. by rewrite IH.
Qed.

(** ** Coverage gaps *)

Lemma column_indexes_Ok labels df ixs :
  column_indexes labels df = Ok ixs →
  Forall2 (λ c i, positions c df = [i]) labels ixs.
Proof.
  revert ixs. induction labels as [|c cs IH]; intros ixs; simpl.
  - intros [= <-]. constructor.
  - destruct (column_index _ c df) as [i|] eqn:Hi; [|done]. simpl.
    destruct (column_indexes cs df) as [l|] eqn:Hl; [|done]. simpl.
    intros [= <-]. constructor; [by eapply column_index_Ok|by apply IH].
Qed.

Lemma column_indexes_elem_of labels df ixs c :
  column_indexes labels df = Ok ixs → c ∈ labels → c ∈ columns df.
Proof.
  intros Hall%column_indexes_Ok Hc.
  induction Hall as [|c' i cs l Hi _ IH]; [by apply elem_of_nil in Hc|].
  apply elem_of_cons in Hc as [->|Hc]; [|by apply IH].
  assert (i ∈ positions c' df) as Hin by (rewrite Hi; by left).
  apply elem_of_positions in Hin. by eapply list_elem_of_lookup_2.
Qed.


Section Coverage_gap_facts.

Variable str_lower : string → string.
Variable str_strip : string → string.
Variable str_of_float : float64 → string.

Local Abbreviation analyze := (coverage str_lower str_strip str_of_float).
Local Abbreviation clean_keyword := (clean_kw str_lower str_strip str_of_float).
Local Abbreviation clean_term := (search_term_clean str_lower str_strip).
Local Abbreviation gap := (coverage_gap str_lower str_strip str_of_float).

Lemma coverage_rows_Ok df cov :
  analyze df = Ok cov →
  ∃ st kw,
    positions "search_term" df = [st] ∧ positions "keyword" df = [kw] ∧
    all_keywords cov
      = list_to_set ((λ r, Some (clean_keyword (cell_at kw r))) <$> data df) ∖ {[ Some ""%string ]} ∧
    all_search_terms cov
      = list_to_set (clean_term <$> (cell_at st <$> data df)) ∧
    uncovered_terms cov = all_search_terms cov ∖ all_keywords cov ∧
    uncovered_rows cov
      = filter (λ r, clean_term (cell_at st r) ∈ uncovered_terms cov) (data df).
Proof.
  unfold coverage.
  destruct (column_index _ "search_term" df) as [st|] eqn:Hst; [|done]. simpl.
  destruct (str_accessor _) as [terms|] eqn:Hterms; [|done]. simpl.
  destruct (column_index _ "keyword" df) as [kw|] eqn:Hkw; [|done]. simpl.
  intros [= <-]. simpl. apply str_accessor_Ok in Hterms as ->.
  exists st, kw. repeat split; by eapply column_index_Ok.
Qed.

(** X18. A row is listed as uncovered exactly when no row of the filtered
    frame has a keyword whose cleaned text is not empty and equals the row's
    cleaned search term; the listed rows keep the order of the frame; and
    the notice that everything is covered (no uncovered row) is shown
    exactly when the set of uncovered terms is empty. *)
Theorem coverage_flags df cov :
  analyze df = Ok cov →
  ∃ st kw,
    positions "search_term" df = [st] ∧ positions "keyword" df = [kw] ∧
    uncovered_rows cov `sublist_of` data df ∧
    (∀ r, r ∈ uncovered_rows cov ↔
          r ∈ data df ∧
          ∀ r', r' ∈ data df →
                clean_term (cell_at st r) = Some (clean_keyword (cell_at kw r')) →
                clean_keyword (cell_at kw r') = ""%string) ∧
    (uncovered_rows cov = [] ↔ uncovered_terms cov = ∅).
Proof.
  intros (st & kw & Hst & Hkw & HK & HT & HU & HR)%coverage_rows_Ok.
  exists st, kw. split; [done|]. split; [done|]. split; [|split].
  - rewrite HR. apply sublist_filter.
  - intros r. rewrite HR, list_elem_of_filter, HU, elem_of_difference, HT, HK.
    rewrite elem_of_list_to_set, elem_of_difference, elem_of_list_to_set.
    rewrite <-list_fmap_compose, !list_elem_of_fmap, elem_of_singleton. split.
    + intros [[_ Hnot] Hr]. split; [done|]. intros r' Hr' Heq.
      destruct (decide (clean_keyword (cell_at kw r') = ""%string)) as [|Hne]; [done|].
      destruct Hnot. split; [by exists r'|]. rewrite Heq. congruence.
    + intros [Hr Hno]. split; [|done]. split; [by exists r|].
      intros [(r' & Heq & Hr') Hne]. apply Hne. f_equal. rewrite Heq. f_equal.
      by apply Hno.
  - rewrite HR. split.
    + intros Hnil. apply set_eq. intros t. split; [|by intros ?%not_elem_of_empty].
      intros Ht. pose proof Ht as Ht'. rewrite HU, elem_of_difference, HT in Ht'.
      destruct Ht' as [Hin _]. apply elem_of_list_to_set in Hin.
      rewrite <-list_fmap_compose in Hin.
      apply list_elem_of_fmap in Hin as (r & -> & Hr).
      assert (r ∈ filter (λ r, clean_term (cell_at st r) ∈ uncovered_terms cov) (data df))
        as Hf by (by apply list_elem_of_filter).
      rewrite Hnil in Hf. by apply elem_of_nil in Hf.
    + intros Hempty. apply elem_of_nil_inv. intros r [Hin _]%list_elem_of_filter.
      rewrite Hempty in Hin. by apply not_elem_of_empty in Hin.
Qed.

Lemma cell_eqb_clean_term a b :
  cell_eqb a b = true → clean_term a = clean_term b.
Proof.
  destruct a as [x|s], b as [y|t]; simpl; try done.
  by intros ->%bool_decide_eq_true.
Qed.

Lemma uncovered_groups_Ok df rows groups :
  uncovered_groups df rows = Ok groups →
  ∃ st im cl co,
    positions "search_term" df = [st] ∧ positions "impressions" df = [im] ∧
    positions "clicks" df = [cl] ∧ positions "cost" df = [co] ∧
    groups = (λ k, let g := group_rows st k rows in
                   {| gap_term := k;
                      gap_impressions := agg_sum (cell_at im <$> g);
                      gap_clicks := agg_sum (cell_at cl <$> g);
                      gap_cost := agg_sum (cell_at co <$> g) |})
             <$> group_keys st rows.
Proof.
  unfold uncovered_groups.
  destruct (column_index _ "search_term" df) as [st|] eqn:Hst; [|done]. simpl.
  destruct (column_index _ "impressions" df) as [im|] eqn:Him; [|done]. simpl.
  destruct (column_index _ "clicks" df) as [cl|] eqn:Hcl; [|done]. simpl.
  destruct (column_index _ "cost" df) as [co|] eqn:Hco; [|done]. simpl.
  intros [= <-]. exists st, im, cl, co. repeat split; by eapply column_index_Ok.
Qed.

(** The rows of a search term are uncovered together: the group of a term
    among the uncovered rows is its group in the whole frame. *)
Lemma group_rows_uncovered (st : nat) (U : gset (option string))
    (rows : list (list cell)) (k k' : cell) (r0 : list cell) :
  r0 ∈ rows → clean_term (cell_at st r0) ∈ U →
  cell_eqb (cell_at st r0) k = true → cell_eqb k' k = true →
  group_rows st k (filter (λ r, clean_term (cell_at st r) ∈ U) rows)
  = group_rows st k' rows.
Proof.
  intros Hr0 HU Hk Hk'. unfold group_rows. rewrite list_filter_filter.
  apply list_filter_iff. intros r. split.
  - intros [Heq _]. apply Is_true_true. apply Is_true_true in Heq.
    eapply cell_eqb_trans; [done|]. by rewrite cell_eqb_sym.
  - intros Heq. apply Is_true_true in Heq.
    assert (cell_eqb (cell_at st r) k = true) as Hrk by (by eapply cell_eqb_trans).
    split; [by apply Is_true_true|].
    assert (cell_eqb (cell_at st r) (cell_at st r0) = true) as Hrr.
    { eapply cell_eqb_trans; [done|]. by rewrite cell_eqb_sym. }
    by rewrite (cell_eqb_clean_term _ _ Hrr).
Qed.

(** X19. When the section shows its two tables, the detailed list has one
    row of eight cells per uncovered row, and every row of the aggregated
    summary agrees with Top Terms: the candidate of Top Terms for that
    search term has the same sums of clicks and of impressions. *)
Theorem coverage_gap_tables df aggregated detailed groups :
  gap df (Gaps aggregated detailed) →
  top_terms_groups df = Ok groups →
  ∃ cov,
    analyze df = Ok cov ∧ uncovered_rows cov ≠ [] ∧
    columns detailed = detail_columns ∧
    length (data detailed) = length (uncovered_rows cov) ∧
    (∀ row, row ∈ data detailed → length row = 8) ∧
    "match_type"%string ∈ columns df ∧ "ad_group"%string ∈ columns df ∧
    ∀ u, u ∈ aggregated →
         ∃ t, t ∈ groups ∧ cell_eqb (term t) (gap_term u) = true ∧
              clicks t = gap_clicks u ∧ impressions t = gap_impressions u.
Proof.
  intros (cov & Hcov & Hne & (ugroups & Hug & [Hperm _]) & ixs & Hixs & Hcols & [Hdperm _]) Hg.
  pose proof (column_indexes_Ok _ _ _ Hixs) as Hall.
  exists cov. split; [done|]. split; [done|]. split; [done|].
  split; [|split; [|split; [|split]]].
  - by rewrite Hdperm, length_fmap.
  - intros row. rewrite Hdperm. intros (r & -> & _)%list_elem_of_fmap.
    unfold project. rewrite length_fmap. by rewrite <-(Forall2_length _ _ _ Hall).
  - eapply column_indexes_elem_of; [exact Hixs|]. unfold detail_columns. set_solver.
  - eapply column_indexes_elem_of; [exact Hixs|]. unfold detail_columns. set_solver.
  - intros u Hu. rewrite Hperm in Hu.
    apply coverage_rows_Ok in Hcov as (st & kw & Hst & _ & _ & _ & _ & HR).
    apply uncovered_groups_Ok in Hug as (st' & im & cl & co & Hst' & Him & Hcl & _ & ->).
    rewrite Hst in Hst'. injection Hst' as <-.
    apply top_terms_groups_Ok in Hg as (st' & cl' & im' & Hst' & Hcl' & Him' & ->).
    rewrite Hst in Hst'. rewrite Hcl in Hcl'. rewrite Him in Him'.
    injection Hst' as <-. injection Hcl' as <-. injection Him' as <-.
    apply list_elem_of_fmap in Hu as (k & -> & Hk). simpl.
    apply elem_of_group_keys in Hk as (Hna & r0 & Hr0 & Hk).
    rewrite HR in Hr0. apply list_elem_of_filter in Hr0 as [HU Hr0].
    destruct (group_keys_represent st (data df) r0 Hr0) as (k' & Hk' & Hr0k');
      [by rewrite Hk|].
    apply elem_of_group_rows in Hr0k' as [Heq _].
    assert (cell_eqb (cell_at st r0) k = true) as Hr0k
      by (rewrite Hk; by apply cell_eqb_refl).
    assert (cell_eqb k' k = true) as Hkk.
    { eapply cell_eqb_trans; [|done]. by rewrite cell_eqb_sym. }
    eexists. split; [apply list_elem_of_fmap; by exists k'|]. simpl.
    split; [done|].
    by rewrite HR, (group_rows_uncovered st _ _ k k' r0).
Qed.

End Coverage_gap_facts.

Lemma coverage_flags_witness :
  ∃ cov,
    coverage lower strip no_float_text filtered_c = Ok cov ∧
    ∃ st kw,
      positions "search_term" filtered_c = [st] ∧ positions "keyword" filtered_c = [kw] ∧
      uncovered_rows cov `sublist_of` data filtered_c ∧
      (∀ r, r ∈ uncovered_rows cov ↔
            r ∈ data filtered_c ∧
            ∀ r', r' ∈ data filtered_c →
                  search_term_clean lower strip (cell_at st r)
                  = Some (clean_kw lower strip no_float_text (cell_at kw r')) →
                  clean_kw lower strip no_float_text (cell_at kw r') = ""%string) ∧
      (uncovered_rows cov = [] ↔ uncovered_terms cov = ∅).
Proof.
  destruct (coverage lower strip no_float_text filtered_c) as [cov|e] eqn:Hcov.
  - exists cov. split; [done|].
    exact (coverage_flags lower strip no_float_text filtered_c cov Hcov).
  - exfalso. vm_compute in Hcov. discriminate Hcov.
Defined.

Lemma coverage_gap_c :
  coverage_gap lower strip no_float_text filtered_c (Gaps gaps_c detailed_c).
Proof.
  destruct (coverage lower strip no_float_text filtered_c) as [cov|e] eqn:Hcov;
    [|exfalso; vm_compute in Hcov; discriminate Hcov].
  assert (uncovered_rows cov = data detailed_c) as HU.
  { vm_compute in Hcov. injection Hcov as <-. reflexivity. }
  exists cov. split; [done|]. rewrite HU. split; [done|]. split.
  - exists gaps_c. split; [by vm_compute|]. split; [done|]. repeat constructor.
  - exists [0; 1; 2; 3; 4; 5; 6; 7]. split; [by vm_compute|]. split; [done|].
    split; [done|]. repeat constructor.
Qed.

Lemma top_terms_groups_c : top_terms_groups filtered_c = Ok top_groups_c.
Proof. by vm_compute. Qed.

Lemma coverage_gap_tables_witness :
  coverage_gap lower strip no_float_text filtered_c (Gaps gaps_c detailed_c) ∧
  top_terms_groups filtered_c = Ok top_groups_c ∧
  ∃ cov,
    coverage lower strip no_float_text filtered_c = Ok cov ∧ uncovered_rows cov ≠ [] ∧
    columns detailed_c = detail_columns ∧
    length (data detailed_c) = length (uncovered_rows cov) ∧
    (∀ row, row ∈ data detailed_c → length row = 8) ∧
    "match_type"%string ∈ columns filtered_c ∧ "ad_group"%string ∈ columns filtered_c ∧
    ∀ u, u ∈ gaps_c →
         ∃ t, t ∈ top_groups_c ∧ cell_eqb (term t) (gap_term u) = true ∧
              clicks t = gap_clicks u ∧ impressions t = gap_impressions u.
Proof.
  split; [exact coverage_gap_c|]. split; [exact top_terms_groups_c|].
  exact (coverage_gap_tables lower strip no_float_text filtered_c _ _ _
           coverage_gap_c top_terms_groups_c).
Defined.

(** ** Insight Requester: the secret and the shape of the answer *)

Section Insight_facts.

Variable secrets : string → result string.
Variable post : Request → result (result json).

Local Abbreviation handler := (generate_insights secrets post).

Lemma getitem_Ok key v x :
  getitem key v = Ok x → ∃ members, v = JObject members ∧ (key, x) ∈ members.
Proof.
  destruct v as [| | | | |members]; simpl; try done.
  destruct (list_find _ members) as [[i [k y]]|] eqn:Hf; [|done]. intros [= <-].
  apply list_find_Some in Hf as (Hi & Hk & _). simpl in Hk. subst k.
  exists members. split; [done|]. by eapply list_elem_of_lookup_2.
Qed.

(** X20. The handler shows a success only for an answer of the expected
    shape: the secret was found, the request was answered with a JSON
    object whose choices member is a list, the first element of the list is
    an object with a message object, and what is shown is the content
    member of that message. *)
Theorem insight_success_shape terms campaign_sel content :
  handler terms campaign_sel = Success content →
  ∃ api_key members rest first_members message_members,
    secrets secret_name = Ok api_key ∧
    post (build_request api_key terms campaign_sel) = Ok (Ok (JObject members)) ∧
    getitem "choices" (JObject members) = Ok (JArray (JObject first_members :: rest)) ∧
    getitem "message" (JObject first_members) = Ok (JObject message_members) ∧
    getitem "content" (JObject message_members) = Ok content.
Proof.
  unfold generate_insights, request_insights.
  destruct (secrets secret_name) as [api_key|] eqn:Hs; [|done]. simpl.
  destruct (post _) as [[result|]|] eqn:Hp; [|done|done]. simpl.
  destruct (py_in "choices" result) as [[]|] eqn:Hin; [|done|done]. simpl.
  destruct (getitem "choices" result) as [choices|] eqn:Hc; [|done]. simpl.
  destruct (getitem_0 choices) as [first|] eqn:Hf; [|done]. simpl.
  destruct (getitem "message" first) as [message|] eqn:Hm; [|done]. simpl.
  destruct (getitem "content" message) as [c|] eqn:Hcont; [|done]. simpl.
  intros [= <-].
  destruct (getitem_Ok _ _ _ Hc) as (members & -> & _).
  destruct (getitem_Ok _ _ _ Hm) as (first_members & -> & _).
  destruct (getitem_Ok _ _ _ Hcont) as (message_members & -> & _).
  destruct choices as [| | |[|a s]|[|x rest]|]; simpl in Hf; try done.
  injection Hf as ->. by exists api_key, members, rest, first_members, message_members.
Qed.

(** X22. Answers that lack the expected shape end in the error branch
    with the exception Python raises: an empty choices list gives the
    IndexError, a first choice without message the KeyError of message, a
    choices member that is a text or a number the TypeError of the
    subscript, and an answer that is a bare number, boolean or null the
    TypeError of the membership test. *)
Theorem insight_malformed_answer terms campaign_sel api_key result :
  secrets secret_name = Ok api_key →
  post (build_request api_key terms campaign_sel) = Ok (Ok result) →
  (getitem "choices" result = Ok (JArray []) →
   handler terms campaign_sel
   = Failure (RequestFailed (IndexError "list index out of range"))) ∧
  (∀ first_members rest,
     getitem "choices" result = Ok (JArray (JObject first_members :: rest)) →
     "message"%string ∉ first_members.*1 →
     handler terms campaign_sel = Failure (RequestFailed (KeyError "message"))) ∧
  (∀ a s,
     getitem "choices" result = Ok (JString (String a s)) →
     handler terms campaign_sel
     = Failure (RequestFailed (TypeError "string indices must be integers, not 'str'"))) ∧
  (∀ x,
     getitem "choices" result = Ok (JNumber x) →
     handler terms campaign_sel = Failure (RequestFailed not_subscriptable)) ∧
  ((result = JNull ∨ (∃ b, result = JBool b) ∨ (∃ x, result = JNumber x)) →
   handler terms campaign_sel
   = Failure (RequestFailed (TypeError "argument is not iterable"))).
Proof.
  intros Hs Hp. unfold generate_insights, request_insights.
  rewrite Hs. simpl. rewrite Hp. simpl. repeat split.
  - intros Hc. rewrite (getitem_py_in _ _ _ Hc). simpl. by rewrite Hc.
  - intros first_members rest Hc Hno. rewrite (getitem_py_in _ _ _ Hc). simpl.
    rewrite Hc. simpl.
    destruct (list_find _ first_members) as [[i [k y]]|] eqn:Hf; [|done].
    apply list_find_Some in Hf as (Hi & Hk & _). simpl in Hk. subst k.
    destruct Hno. apply list_elem_of_fmap. exists ("message"%string, y).
    split; [done|]. by eapply list_elem_of_lookup_2.
  - intros a s Hc. rewrite (getitem_py_in _ _ _ Hc). simpl. by rewrite Hc.
  - intros x Hc. rewrite (getitem_py_in _ _ _ Hc). simpl. by rewrite Hc.
  - by intros [->|[[b ->]|[x ->]]].
Qed.

End Insight_facts.

Lemma insight_success_shape_witness :
  generate_insights secrets_ok post_ok [Str "cheap boots"] "All"
  = Success (JString "Bid on boots.") ∧
  ∃ api_key members rest first_members message_members,
    secrets_ok secret_name = Ok api_key ∧
    post_ok (build_request api_key [Str "cheap boots"] "All") = Ok (Ok (JObject members)) ∧
    getitem "choices" (JObject members) = Ok (JArray (JObject first_members :: rest)) ∧
    getitem "message" (JObject first_members) = Ok (JObject message_members) ∧
    getitem "content" (JObject message_members) = Ok (JString "Bid on boots.").
Proof.
  assert (generate_insights secrets_ok post_ok [Str "cheap boots"] "All"
          = Success (JString "Bid on boots.")) as H by reflexivity.
  split; [exact H|].
  exact (insight_success_shape secrets_ok post_ok _ _ _ H).
Defined.

Lemma insight_malformed_answer_witness :
  secrets_ok secret_name = Ok "key"%string ∧
  post_no_choice (build_request "key" [Str "cheap boots"] "All") = Ok (Ok reply_no_choice) ∧
  getitem "choices" reply_no_choice = Ok (JArray []) ∧
  generate_insights secrets_ok post_no_choice [Str "cheap boots"] "All"
  = Failure (RequestFailed (IndexError "list index out of range")).
Proof.
  split; [reflexivity|]. split; [reflexivity|]. split; [reflexivity|].
  exact (proj1 (insight_malformed_answer secrets_ok post_no_choice
                  [Str "cheap boots"] "All" "key" reply_no_choice eq_refl eq_refl)
           eq_refl).
Defined.
